(** * Image-App: the Gemini service wrappers

    A shallow embedding of [services/geminiService.ts]: the three
    asynchronous wrappers [generateImage], [editImage] and
    [getPosturePrompts] around the [@google/genai] client, with the
    credential lookup [getAiClient] they share.

    JavaScript strings are sequences of UTF-16 code units; exceptions,
    the console and the network are made explicit by a small monad that
    threads a trace of observable events and a completion (normal or
    abrupt). *)

From Stdlib Require Import List NArith String Ascii Bool Lia.
Import ListNotations.

Set Warnings "-register-all".
Local Open Scope list_scope.
Local Open Scope N_scope.

(** ** JavaScript strings *)

Definition code_unit : Type := N.
Definition jsstring : Type := list code_unit.

(** A string literal of the source (all of them are ASCII). *)
Definition lit (s : string) : jsstring :=
  map N_of_ascii (list_ascii_of_string s).

(** [`${v}`]: the substitution of a template literal applies ToString,
    which maps [undefined] to the text "undefined". *)
Definition template (v : option jsstring) : jsstring :=
  match v with
  | Some s => s
  | None => lit "undefined"
  end.

(** ToBoolean on a value of type [string | undefined]. *)
Definition truthy (v : option jsstring) : bool :=
  match v with
  | Some (_ :: _) => true
  | _ => false
  end.

(** WhiteSpace and LineTerminator code points of ECMAScript, the ones
    [String.prototype.trim] strips. *)
Definition is_trim_space (c : code_unit) : bool :=
  ((9 <=? c) && (c <=? 13))
  || (c =? 32) || (c =? 160) || (c =? 5760)
  || ((8192 <=? c) && (c <=? 8202))
  || (c =? 8232) || (c =? 8233) || (c =? 8239) || (c =? 8287)
  || (c =? 12288) || (c =? 65279).

Fixpoint trim_start (s : jsstring) : jsstring :=
  match s with
  | c :: s' => if is_trim_space c then trim_start s' else s
  | [] => []
  end.

Definition trim (s : jsstring) : jsstring :=
  rev (trim_start (rev (trim_start s))).

(** ** JSON values and [JSON.parse]

    A number is kept as the text of its literal: nothing below depends
    on the double it denotes.  An object is a list of members, each key
    once (a later duplicate replaces the value of the earlier one); the
    enumeration order of JavaScript objects is not modelled.

    The parser is a scanner followed by a pushdown recogniser, both
    structurally recursive on their input, hence total. *)

Module JSON.

Inductive json : Type :=
| JNull
| JBool (b : bool)
| JNumber (literal : jsstring)
| JString (s : jsstring)
| JArray (elements : list json)
| JObject (members : list (jsstring * json)).

Definition jsstring_eqb (a b : jsstring) : bool :=
  if list_eq_dec N.eq_dec a b then true else false.

(** Property lookup [o[key]]. *)
Fixpoint get_member (members : list (jsstring * json)) (key : jsstring)
  : option json :=
  match members with
  | [] => None
  | (k, v) :: rest =>
      if jsstring_eqb k key then Some v else get_member rest key
  end.

(** Property definition: a key that is already there keeps its place and
    takes the new value. *)
Fixpoint set_member (members : list (jsstring * json)) (key : jsstring)
    (v : json) : list (jsstring * json) :=
  match members with
  | [] => [(key, v)]
  | (k, v0) :: rest =>
      if jsstring_eqb k key then (k, v) :: rest
      else (k, v0) :: set_member rest key v
  end.

Inductive token : Type :=
| TLBrace | TRBrace | TLBracket | TRBracket | TColon | TComma
| TString (s : jsstring)
| TNumber (literal : jsstring)
| TTrue | TFalse | TNull.

(** Where the scanner stands inside a number literal: an optional minus
    sign, an integer part without leading zero, an optional fraction and
    an optional exponent. *)
Inductive num_state : Type :=
| NMinus | NZero | NInt | NDot | NFrac | NExp | NExpSign | NExpDigits.

Definition num_accepting (st : num_state) : bool :=
  match st with
  | NZero | NInt | NFrac | NExpDigits => true
  | NMinus | NDot | NExp | NExpSign => false
  end.

Inductive lex_state : Type :=
| LStart
| LString (acc : jsstring)
| LEscape (acc : jsstring)
| LUnicode (acc : jsstring) (count : nat) (value : N)
| LNumber (acc : jsstring) (st : num_state)
| LWord (tok : token) (rest : jsstring).

Definition is_json_space (c : code_unit) : bool :=
  (c =? 9) || (c =? 10) || (c =? 13) || (c =? 32).

Definition is_digit (c : code_unit) : bool := (48 <=? c) && (c <=? 57).

Definition hex_value (c : code_unit) : option N :=
  if (48 <=? c) && (c <=? 57) then Some (c - 48)
  else if (65 <=? c) && (c <=? 70) then Some (c - 55)
  else if (97 <=? c) && (c <=? 102) then Some (c - 87)
  else None.

(** The scanner between two tokens; [toks] is the reversed output. *)
Definition lex_start (toks : list token) (c : code_unit)
  : option (lex_state * list token) :=
  if is_json_space c then Some (LStart, toks)
  else if c =? 123 then Some (LStart, TLBrace :: toks)
  else if c =? 125 then Some (LStart, TRBrace :: toks)
  else if c =? 91 then Some (LStart, TLBracket :: toks)
  else if c =? 93 then Some (LStart, TRBracket :: toks)
  else if c =? 58 then Some (LStart, TColon :: toks)
  else if c =? 44 then Some (LStart, TComma :: toks)
  else if c =? 34 then Some (LString [], toks)
  else if c =? 45 then Some (LNumber [c] NMinus, toks)
  else if c =? 48 then Some (LNumber [c] NZero, toks)
  else if is_digit c then Some (LNumber [c] NInt, toks)
  else if c =? 116 then Some (LWord TTrue (lit "rue"), toks)
  else if c =? 102 then Some (LWord TFalse (lit "alse"), toks)
  else if c =? 110 then Some (LWord TNull (lit "ull"), toks)
  else None.

(** The character after a backslash: quote, backslash, slash, b, f, n,
    r, t (the escape u is handled by the scanner). *)
Definition escape_value (c : code_unit) : option code_unit :=
  if c =? 34 then Some 34
  else if c =? 92 then Some 92
  else if c =? 47 then Some 47
  else if c =? 98 then Some 8
  else if c =? 102 then Some 12
  else if c =? 110 then Some 10
  else if c =? 114 then Some 13
  else if c =? 116 then Some 9
  else None.

Definition num_step (st : num_state) (c : code_unit) : option num_state :=
  let exponent := (c =? 101) || (c =? 69) in
  match st with
  | NMinus => if c =? 48 then Some NZero
              else if is_digit c then Some NInt else None
  | NZero => if c =? 46 then Some NDot
             else if exponent then Some NExp else None
  | NInt => if is_digit c then Some NInt
            else if c =? 46 then Some NDot
            else if exponent then Some NExp else None
  | NDot => if is_digit c then Some NFrac else None
  | NFrac => if is_digit c then Some NFrac
             else if exponent then Some NExp else None
  | NExp => if (c =? 43) || (c =? 45) then Some NExpSign
            else if is_digit c then Some NExpDigits else None
  | NExpSign => if is_digit c then Some NExpDigits else None
  | NExpDigits => if is_digit c then Some NExpDigits else None
  end.

Definition lex_step (st : lex_state) (toks : list token) (c : code_unit)
  : option (lex_state * list token) :=
  match st with
  | LStart => lex_start toks c
  | LString acc =>
      if c =? 34 then Some (LStart, TString (rev acc) :: toks)
      else if c =? 92 then Some (LEscape acc, toks)
      else if c <? 32 then None
      else Some (LString (c :: acc), toks)
  | LEscape acc =>
      if c =? 117 then Some (LUnicode acc 0 0, toks)
      else match escape_value c with
           | Some e => Some (LString (e :: acc), toks)
           | None => None
           end
  | LUnicode acc count value =>
      match hex_value c with
      | Some h =>
          let value' := 16 * value + h in
          match count with
          | 3%nat => Some (LString (value' :: acc), toks)
          | _ => Some (LUnicode acc (S count) value', toks)
          end
      | None => None
      end
  | LNumber acc n =>
      match num_step n c with
      | Some n' => Some (LNumber (c :: acc) n', toks)
      | None =>
          if num_accepting n then lex_start (TNumber (rev acc) :: toks) c
          else None
      end
  | LWord tok rest =>
      match rest with
      | [] => None
      | x :: [] => if c =? x then Some (LStart, tok :: toks) else None
      | x :: rest' => if c =? x then Some (LWord tok rest', toks) else None
      end
  end.

Definition lex_end (st : lex_state) (toks : list token)
  : option (list token) :=
  match st with
  | LStart => Some (rev toks)
  | LNumber acc n =>
      if num_accepting n then Some (rev (TNumber (rev acc) :: toks)) else None
  | _ => None
  end.

Fixpoint lex_from (st : lex_state) (toks : list token) (s : jsstring)
  : option (list token) :=
  match s with
  | [] => lex_end st toks
  | c :: s' =>
      match lex_step st toks c with
      | Some (st', toks') => lex_from st' toks' s'
      | None => None
      end
  end.

Definition tokenize (s : jsstring) : option (list token) :=
  lex_from LStart [] s.

(** The containers that are open around the value being read. *)
Inductive frame : Type :=
| InArray (elements : list json)                  (* reversed *)
| InObject (members : list (jsstring * json)) (key : jsstring).

Inductive parse_state : Type :=
| PValue (stack : list frame)
| PArrayFirst (stack : list frame)
| PArrayNext (elements : list json) (stack : list frame)
| PObjectFirst (stack : list frame)
| PObjectKey (members : list (jsstring * json)) (stack : list frame)
| PObjectColon (members : list (jsstring * json)) (key : jsstring)
    (stack : list frame)
| PObjectNext (members : list (jsstring * json)) (stack : list frame)
| PEnd (v : json).

(** A value is complete: hand it to the container it stands in. *)
Definition deliver (v : json) (stack : list frame) : parse_state :=
  match stack with
  | [] => PEnd v
  | InArray elements :: stack' => PArrayNext (v :: elements) stack'
  | InObject members key :: stack' =>
      PObjectNext (set_member members key v) stack'
  end.

Definition start_value (stack : list frame) (t : token)
  : option parse_state :=
  match t with
  | TNull => Some (deliver JNull stack)
  | TTrue => Some (deliver (JBool true) stack)
  | TFalse => Some (deliver (JBool false) stack)
  | TNumber n => Some (deliver (JNumber n) stack)
  | TString s => Some (deliver (JString s) stack)
  | TLBracket => Some (PArrayFirst stack)
  | TLBrace => Some (PObjectFirst stack)
  | TRBrace | TRBracket | TColon | TComma => None
  end.

Definition parse_step (st : parse_state) (t : token) : option parse_state :=
  match st with
  | PValue stack => start_value stack t
  | PArrayFirst stack =>
      match t with
      | TRBracket => Some (deliver (JArray []) stack)
      | _ => start_value (InArray [] :: stack) t
      end
  | PArrayNext elements stack =>
      match t with
      | TComma => Some (PValue (InArray elements :: stack))
      | TRBracket => Some (deliver (JArray (rev elements)) stack)
      | _ => None
      end
  | PObjectFirst stack =>
      match t with
      | TRBrace => Some (deliver (JObject []) stack)
      | TString key => Some (PObjectColon [] key stack)
      | _ => None
      end
  | PObjectKey members stack =>
      match t with
      | TString key => Some (PObjectColon members key stack)
      | _ => None
      end
  | PObjectColon members key stack =>
      match t with
      | TColon => Some (PValue (InObject members key :: stack))
      | _ => None
      end
  | PObjectNext members stack =>
      match t with
      | TComma => Some (PObjectKey members stack)
      | TRBrace => Some (deliver (JObject members) stack)
      | _ => None
      end
  | PEnd _ => None
  end.

Fixpoint parse_from (st : parse_state) (toks : list token) : option json :=
  match toks with
  | [] => match st with PEnd v => Some v | _ => None end
  | t :: toks' =>
      match parse_step st t with
      | Some st' => parse_from st' toks'
      | None => None
      end
  end.

(** [JSON.parse(s)]: [None] stands for the SyntaxError it throws. *)
Definition parse (s : jsstring) : option json :=
  match tokenize s with
  | Some toks => parse_from (PValue []) toks
  | None => None
  end.

End JSON.

Import JSON.

(** ** Thrown values, observable events and the [Async] monad *)

Inductive thrown : Type :=
| Error (message : jsstring)          (* new Error(message) *)
| TypeError (reading : string)        (* property read on undefined *)
| SyntaxError                         (* JSON.parse on invalid text *)
| ApiError (status : N) (message : jsstring). (* a rejection of the SDK *)

Inductive completion (A : Type) : Type :=
| Return (a : A)
| Throw (e : thrown).
Arguments Return {A} a.
Arguments Throw {A} e.

(** ** The [@google/genai] data the service touches *)

(** [new GoogleGenAI({ apiKey })]: the client keeps the options it got. *)
Record GoogleGenAI : Type := { apiKey : option jsstring }.

Record Blob : Type := { data : option jsstring; mimeType : option jsstring }.

Record Part : Type := { inlineData : option Blob; text : option jsstring }.

Record Content : Type := { parts : option (list Part) }.

Record Candidate : Type := { content : option Content }.

Record Image : Type := { imageBytes : option jsstring }.

Record GeneratedImage : Type := { image : option Image }.

Record GenerateImagesResponse : Type :=
  { generatedImages : option (list GeneratedImage) }.

Record GenerateContentResponse : Type :=
  { candidates : option (list Candidate);
    response_text : option jsstring }.

Record GenerateImagesConfig : Type :=
  { numberOfImages : N;
    outputMimeType : jsstring;
    aspectRatio : jsstring }.

Record GenerateImagesParameters : Type :=
  { images_model : jsstring;
    images_prompt : jsstring;
    images_config : GenerateImagesConfig }.

Inductive Modality : Type := TEXT | IMAGE | AUDIO.

Inductive Schema : Type :=
| STRING (description : jsstring)
| OBJECT (properties : list (jsstring * Schema)) (required : list jsstring)
| ARRAY (items : Schema).

Inductive ContentUnion : Type :=
| ContentParts (ps : list Part)       (* contents: { parts: [...] } *)
| ContentString (s : jsstring).       (* contents: "..." *)

Record GenerateContentConfig : Type :=
  { responseModalities : option (list Modality);
    responseMimeType : option jsstring;
    responseSchema : option Schema }.

Record GenerateContentParameters : Type :=
  { content_model : jsstring;
    contents : ContentUnion;
    content_config : GenerateContentConfig }.

Inductive remote_call : Type :=
| CallGenerateImages (ai : GoogleGenAI) (params : GenerateImagesParameters)
| CallGenerateContent (ai : GoogleGenAI) (params : GenerateContentParameters).

Inductive event : Type :=
| NetworkCall (c : remote_call)
| ConsoleError (label : jsstring) (e : thrown).

Definition is_network_call (ev : event) : bool :=
  match ev with
  | NetworkCall _ => true
  | ConsoleError _ _ => false
  end.

(** What surrounds a call: the process environment and the remote model
    service, which answers a request with a response or rejects it. *)
Record World : Type :=
  { API_KEY : option jsstring;
    generateImages :
      GoogleGenAI -> GenerateImagesParameters ->
      thrown + GenerateImagesResponse;
    generateContent :
      GoogleGenAI -> GenerateContentParameters ->
      thrown + GenerateContentResponse }.

Definition Async (A : Type) : Type := list event -> completion A * list event.

Definition ret {A} (a : A) : Async A := fun tr => (Return a, tr).

Definition throw {A} (e : thrown) : Async A := fun tr => (Throw e, tr).

Definition bind {A B} (m : Async A) (k : A -> Async B) : Async B :=
  fun tr =>
    match m tr with
    | (Return a, tr') => k a tr'
    | (Throw e, tr') => (Throw e, tr')
    end.

Definition try_catch {A} (body : Async A) (handler : thrown -> Async A)
  : Async A :=
  fun tr =>
    match body tr with
    | (Return a, tr') => (Return a, tr')
    | (Throw e, tr') => handler e tr'
    end.

Definition emit (ev : event) : Async unit :=
  fun tr => (Return tt, tr ++ [ev]).

Notation "x <- m ;; k" := (bind m (fun x => k))
  (at level 61, m at next level, right associativity).
Notation "m ;;; k" := (bind m (fun _ => k))
  (at level 61, right associativity).

Definition console_error (label : jsstring) (e : thrown) : Async unit :=
  emit (ConsoleError label e).

(** Reading property [name] of [o]: a TypeError when [o] is undefined. *)
Definition read {A} (name : string) (o : option A) : Async A :=
  match o with
  | Some a => ret a
  | None => throw (TypeError name)
  end.

(** [await ai.models.generateImages(params)] *)
Definition await_generateImages (w : World) (ai : GoogleGenAI)
    (params : GenerateImagesParameters) : Async GenerateImagesResponse :=
  emit (NetworkCall (CallGenerateImages ai params)) ;;;
  match generateImages w ai params with
  | inl e => throw e
  | inr response => ret response
  end.

(** [await ai.models.generateContent(params)] *)
Definition await_generateContent (w : World) (ai : GoogleGenAI)
    (params : GenerateContentParameters) : Async GenerateContentResponse :=
  emit (NetworkCall (CallGenerateContent ai params)) ;;;
  match generateContent w ai params with
  | inl e => throw e
  | inr response => ret response
  end.

(** Running a call from an empty trace. *)
Definition run {A} (m : Async A) : completion A * list event := m [].
Definition outcome {A} (m : Async A) : completion A := fst (run m).
Definition trace {A} (m : Async A) : list event := snd (run m).

(** ** The service *)

Definition API_KEY_not_set : jsstring :=
  lit "API_KEY environment variable not set".

Definition getAiClient (w : World) : Async GoogleGenAI :=
  let apiKey := API_KEY w in
  if negb (truthy apiKey)
  then throw (Error API_KEY_not_set)
  else ret {| apiKey := apiKey |}.

Definition generateImage_failed : jsstring :=
  lit "Failed to generate image. Please check the prompt or try again later.".

Definition generateImages_request (prompt : jsstring)
  : GenerateImagesParameters :=
  {| images_model := lit "imagen-4.0-generate-001";
     images_prompt := prompt;
     images_config :=
       {| numberOfImages := 1;
          outputMimeType := lit "image/jpeg";
          aspectRatio := lit "1:1" |} |}.

Definition generateImage (w : World) (prompt : jsstring) : Async jsstring :=
  try_catch
    (ai <- getAiClient w ;;
     response <- await_generateImages w ai (generateImages_request prompt) ;;
     match generatedImages response with
     | Some (first :: _) =>
         img <- read "imageBytes" (image first) ;;
         let base64ImageBytes := imageBytes img in
         ret (lit "data:image/jpeg;base64," ++ template base64ImageBytes)
     | _ =>
         throw (Error (lit
           "No image was generated. The response may have been blocked."))
     end)
    (fun error =>
       console_error (lit "Error generating image:") error ;;;
       throw (Error generateImage_failed)).

Definition editImage_failed : jsstring :=
  lit "Failed to edit image. Please check the prompt or try again later.".

Definition editImage_request (base64Image mimeType prompt : jsstring)
  : GenerateContentParameters :=
  let imagePart :=
    {| inlineData := Some {| data := Some base64Image;
                             mimeType := Some mimeType |};
       text := None |} in
  let textPart := {| inlineData := None; text := Some prompt |} in
  {| content_model := lit "gemini-2.5-flash-image";
     contents := ContentParts [imagePart; textPart];
     content_config :=
       {| responseModalities := Some [IMAGE];
          responseMimeType := None;
          responseSchema := None |} |}.

(** The [for ... of] loop over the response parts, left by [return] at
    the first part whose [inlineData] is set. *)
Fixpoint for_parts (ps : list Part) : option jsstring :=
  match ps with
  | [] => None
  | part :: rest =>
      match inlineData part with
      | Some blob =>
          let base64ImageBytes := data blob in
          Some (lit "data:" ++ template (mimeType blob)
                ++ lit ";base64," ++ template base64ImageBytes)
      | None => for_parts rest
      end
  end.

Definition editImage (w : World) (base64Image mimeType prompt : jsstring)
  : Async jsstring :=
  try_catch
    (ai <- getAiClient w ;;
     response <- await_generateContent w ai
                   (editImage_request base64Image mimeType prompt) ;;
     cands <- read "0" (candidates response) ;;
     cand <- read "content" (hd_error cands) ;;
     cont <- read "parts" (content cand) ;;
     ps <- read "Symbol.iterator" (parts cont) ;;
     match for_parts ps with
     | Some uri => ret uri
     | None =>
         throw (Error (lit
           "No edited image was generated. The response may have been blocked."))
     end)
    (fun error =>
       console_error (lit "Error editing image:") error ;;;
       throw (Error editImage_failed)).

Definition getPosturePrompts_failed : jsstring :=
  lit "Failed to fetch posture prompt ideas.".

Definition posture_prompt : jsstring := lit "
      Generate 8 detailed, creative image editing prompts for a generative AI model like 'nano banana' (gemini-2.5-flash-image).
      These prompts should focus on changing a person's posture in an existing photo. For example, 'Make the person stand up straight' or 'Change their pose to be sitting cross-legged'.
      Each prompt should include a short, catchy title and the detailed prompt text.
      Ensure the output is a valid JSON array of objects, where each object has 'title' and 'prompt' keys.
    ".

Definition getPosturePrompts_request : GenerateContentParameters :=
  {| content_model := lit "gemini-2.5-flash";
     contents := ContentString posture_prompt;
     content_config :=
       {| responseModalities := None;
          responseMimeType := Some (lit "application/json");
          responseSchema := Some (ARRAY (OBJECT
            [ (lit "title",
               STRING (lit "The short, catchy title of the prompt."));
              (lit "prompt",
               STRING (lit
                 "The detailed prompt for editing an image posture.")) ]
            [ lit "title"; lit "prompt" ])) |} |}.

(** The result is what [JSON.parse] gave: the cast [as PosturePrompt[]]
    is erased when the program is compiled and checks nothing. *)
Definition getPosturePrompts (w : World) : Async json :=
  try_catch
    (ai <- getAiClient w ;;
     response <- await_generateContent w ai getPosturePrompts_request ;;
     txt <- read "trim" (response_text response) ;;
     let jsonString := trim txt in
     match JSON.parse jsonString with
     | Some prompts => ret prompts
     | None => throw SyntaxError
     end)
    (fun error =>
       console_error (lit "Error fetching posture prompts:") error ;;;
       throw (Error getPosturePrompts_failed)).

(** Modelled from the spec: the interface [PosturePrompt] of [types.ts],
    which is not among the sources; the spec gives it as an object with
    the two string fields [title] and [prompt], both non-empty. *)
Record PosturePrompt : Type := { title : jsstring; prompt : jsstring }.

Definition PosturePrompt_to_json (p : PosturePrompt) : json :=
  JObject [ (lit "title", JString (title p));
            (lit "prompt", JString (prompt p)) ].

(** A JSON value that has the shape of a [PosturePrompt]. *)
Definition is_PosturePrompt (v : json) : bool :=
  match v with
  | JObject members =>
      match get_member members (lit "title"),
            get_member members (lit "prompt") with
      | Some (JString (_ :: _)), Some (JString (_ :: _)) => true
      | _, _ => false
      end
  | _ => false
  end.

Definition is_PosturePrompt_array (v : json) : bool :=
  match v with
  | JArray elements => forallb is_PosturePrompt elements
  | _ => false
  end.

Definition no_network_call (tr : list event) : bool :=
  forallb (fun ev => negb (is_network_call ev)) tr.

(** The client a call builds when the credential is set. *)
Definition client (w : World) : GoogleGenAI := {| apiKey := API_KEY w |}.

(** ** Concrete worlds *)

Definition answer_images (r : thrown + GenerateImagesResponse)
  : GoogleGenAI -> GenerateImagesParameters -> thrown + GenerateImagesResponse :=
  fun _ _ => r.

Definition answer_content (r : thrown + GenerateContentResponse)
  : GoogleGenAI -> GenerateContentParameters ->
    thrown + GenerateContentResponse :=
  fun _ _ => r.

Definition no_images : GenerateImagesResponse := {| generatedImages := None |}.

Definition no_content : GenerateContentResponse :=
  {| candidates := None; response_text := None |}.

Definition stub_world (key : option jsstring)
    (images : thrown + GenerateImagesResponse)
    (cont : thrown + GenerateContentResponse) : World :=
  {| API_KEY := key;
     generateImages := answer_images images;
     generateContent := answer_content cont |}.

Definition one_jpeg : GenerateImagesResponse :=
  {| generatedImages :=
       Some [ {| image := Some {| imageBytes := Some (lit "/9j/4AAQSkZJRg==") |} |} ] |}.

Definition content_response (ps : list Part) : GenerateContentResponse :=
  {| candidates := Some [ {| content := Some {| parts := Some ps |} |} ];
     response_text := None |}.

Definition text_part (s : string) : Part :=
  {| inlineData := None; text := Some (lit s) |}.

Definition image_part (mime bytes : string) : Part :=
  {| inlineData := Some {| data := Some (lit bytes);
                           mimeType := Some (lit mime) |};
     text := None |}.

Definition quota_exceeded : thrown :=
  ApiError 429 (lit "RESOURCE_EXHAUSTED: quota exceeded for project 42").

Definition world_without_key : World :=
  stub_world None (inr one_jpeg) (inr no_content).

Definition world_empty_key : World :=
  stub_world (Some []) (inr one_jpeg)
    (inr (content_response [image_part "image/png" "iVBORw0KGgo="])).

Definition test_key : option jsstring := Some (lit "test-key").

(** JSON text written with apostrophes where the text has quotation
    marks. *)
Definition json_text (s : string) : jsstring :=
  map (fun c => if c =? 39 then 34 else c) (lit s).

Definition json_response (s : string) : GenerateContentResponse :=
  {| candidates := None; response_text := Some (json_text s) |}.

Definition eight_prompts : list PosturePrompt :=
  [ {| title := lit "Stand Tall";
       prompt := lit "Make the person stand up straight." |};
    {| title := lit "Lotus";
       prompt := lit "Change their pose to be sitting cross-legged." |};
    {| title := lit "Victory";
       prompt := lit "Raise both arms above the head." |};
    {| title := lit "Thinker";
       prompt := lit "Rest the chin on the right hand." |};
    {| title := lit "Runner";
       prompt := lit "Put the person in a sprinting stride." |};
    {| title := lit "Lean Back";
       prompt := lit "Lean the person against the wall." |};
    {| title := lit "Kneel";
       prompt := lit "Have the person kneel on one knee." |};
    {| title := lit "Wave";
       prompt := lit "Lift the left hand in a wave." |} ].

(** A response whose text is valid JSON but not an array of prompts: the
    only element has no [prompt]. *)
Definition world_partial_prompt : World :=
  stub_world test_key (inr no_images)
    (inr (json_response "[{'title': 'Stand Tall'}]")).

Definition world_quota_exceeded : World :=
  stub_world test_key (inl quota_exceeded) (inl quota_exceeded).

Definition world_no_candidates : World :=
  stub_world test_key (inr no_images)
    (inr {| candidates := Some []; response_text := None |}).

(** The response offers no list of parts: reading
    [response.candidates[0].content.parts] faults, or what it yields
    cannot be iterated. *)
Definition no_part_list (response : GenerateContentResponse) : Prop :=
  candidates response = None
  \/ candidates response = Some []
  \/ exists cand rest,
       candidates response = Some (cand :: rest)
       /\ (content cand = None
           \/ exists cont, content cand = Some cont /\ parts cont = None).

(** *** Writing prompts as JSON text

    The text a schema-abiding service sends for a list of prompts: the
    objects between brackets, separated by commas, each string between
    quotation marks with the quotation mark, the backslash and the
    control characters escaped.  Code units: 34 the quotation mark, 44
    the comma, 58 the colon, 91 and 93 the brackets, 92 the backslash,
    117 the letter u, 123 and 125 the braces. *)

Definition hex_digit (d : N) : code_unit :=
  if d <? 10 then 48 + d else 87 + d.

Definition quote_unit (c : code_unit) : jsstring :=
  if c =? 34 then [92; 34]
  else if c =? 92 then [92; 92]
  else if c <? 32
       then [92; 117; 48; 48; hex_digit (c / 16); hex_digit (c mod 16)]
       else [c].

Definition quote (s : jsstring) : jsstring :=
  34 :: flat_map quote_unit s ++ [34].

Definition write_prompt (p : PosturePrompt) : jsstring :=
  [123] ++ quote (lit "title") ++ [58] ++ quote (title p) ++ [44]
  ++ quote (lit "prompt") ++ [58] ++ quote (prompt p) ++ [125].

Fixpoint write_prompts_tail (ps : list PosturePrompt) : jsstring :=
  match ps with
  | [] => [93]
  | p :: ps' => [44] ++ write_prompt p ++ write_prompts_tail ps'
  end.

Definition write_prompts (ps : list PosturePrompt) : jsstring :=
  match ps with
  | [] => [91; 93]
  | p :: ps' => [91] ++ write_prompt p ++ write_prompts_tail ps'
  end.

Definition member_tokens (p : PosturePrompt) : list token :=
  [ TString (lit "title"); TColon; TString (title p); TComma;
    TString (lit "prompt"); TColon; TString (prompt p); TRBrace ].

Definition tail_tokens (ps : list PosturePrompt) : list token :=
  flat_map (fun p => TComma :: TLBrace :: member_tokens p) ps ++ [TRBracket].

Definition prompts_tokens (ps : list PosturePrompt) : list token :=
  match ps with
  | [] => [TLBracket; TRBracket]
  | p :: ps' => TLBracket :: TLBrace :: member_tokens p ++ tail_tokens ps'
  end.

(** *** The texts of an array of prompts

    Every way of writing, as JSON, an array of objects whose members are
    strings: any white space of JSON between the tokens, any mix of
    plain characters and escapes inside the strings, the members in any
    order and number.  A text is given by its syntax, from which both
    its characters and the value it denotes are read, without the
    parser. *)

Inductive escape : Type :=
| EQuote | EBackslash | ESlash | EBackspace | EFormFeed | ENewline
| EReturn | ETab.

(** The letter after the backslash. *)
Definition escape_letter (e : escape) : code_unit :=
  match e with
  | EQuote => 34 | EBackslash => 92 | ESlash => 47 | EBackspace => 98
  | EFormFeed => 102 | ENewline => 110 | EReturn => 114 | ETab => 116
  end.

(** The code unit the escape stands for. *)
Definition escape_unit (e : escape) : code_unit :=
  match e with
  | EQuote => 34 | EBackslash => 92 | ESlash => 47 | EBackspace => 8
  | EFormFeed => 12 | ENewline => 10 | EReturn => 13 | ETab => 9
  end.

(** A hexadecimal digit, written in either case. *)
Record hex : Type := { hex_val : N; hex_upper : bool }.

Definition hex_char (h : hex) : code_unit :=
  if hex_val h <? 10 then 48 + hex_val h
  else if hex_upper h then 55 + hex_val h
  else 87 + hex_val h.

Inductive string_item : Type :=
| Plain (c : code_unit)
| Escaped (e : escape)
| Unicode (h1 h2 h3 h4 : hex).

Definition item_ok (i : string_item) : bool :=
  match i with
  | Plain c => (32 <=? c) && negb (c =? 34) && negb (c =? 92)
  | Escaped _ => true
  | Unicode h1 h2 h3 h4 =>
      (hex_val h1 <? 16) && (hex_val h2 <? 16)
      && (hex_val h3 <? 16) && (hex_val h4 <? 16)
  end.

Definition item_text (i : string_item) : jsstring :=
  match i with
  | Plain c => [c]
  | Escaped e => [92; escape_letter e]
  | Unicode h1 h2 h3 h4 =>
      [92; 117; hex_char h1; hex_char h2; hex_char h3; hex_char h4]
  end.

Definition item_unit (i : string_item) : code_unit :=
  match i with
  | Plain c => c
  | Escaped e => escape_unit e
  | Unicode h1 h2 h3 h4 =>
      4096 * hex_val h1 + 256 * hex_val h2 + 16 * hex_val h3 + hex_val h4
  end.

(** A string between its quotation marks. *)
Definition literal : Type := list string_item.

Definition literal_ok (l : literal) : bool := forallb item_ok l.

Definition literal_text (l : literal) : jsstring :=
  34 :: flat_map item_text l ++ [34].

Definition literal_value (l : literal) : jsstring := map item_unit l.

Definition gap_ok (gap : jsstring) : bool := forallb is_json_space gap.

(** A member [key : value], with the white space before the key, the
    colon and the value, and after the value. *)
Record member_syntax : Type :=
  { key_gap : jsstring;
    key_literal : literal;
    colon_gap : jsstring;
    value_gap : jsstring;
    value_literal : literal;
    member_end_gap : jsstring }.

Definition member_ok (m : member_syntax) : bool :=
  gap_ok (key_gap m) && literal_ok (key_literal m)
  && gap_ok (colon_gap m) && gap_ok (value_gap m)
  && literal_ok (value_literal m) && gap_ok (member_end_gap m).

Definition member_text (m : member_syntax) : jsstring :=
  key_gap m ++ literal_text (key_literal m) ++ colon_gap m ++ [58]
  ++ value_gap m ++ literal_text (value_literal m) ++ member_end_gap m.

(** An object, with the white space before its brace, after its brace
    and after its closing brace. *)
Record object_syntax : Type :=
  { object_gap : jsstring;
    object_inner_gap : jsstring;
    object_members : list member_syntax;
    object_end_gap : jsstring }.

Definition object_ok (o : object_syntax) : bool :=
  gap_ok (object_gap o) && gap_ok (object_inner_gap o)
  && forallb member_ok (object_members o) && gap_ok (object_end_gap o).

(** Items separated by commas. *)
Definition comma_separated {A} (text : A -> jsstring) (l : list A)
  : jsstring :=
  match l with
  | [] => []
  | a :: l' => text a ++ flat_map (fun b => 44 :: text b) l'
  end.

Definition object_text (o : object_syntax) : jsstring :=
  object_gap o ++ [123] ++ object_inner_gap o
  ++ comma_separated member_text (object_members o) ++ [125]
  ++ object_end_gap o.

(** The object the members define, a later member replacing an earlier
    one of the same key. *)
Definition add_member (members : list (jsstring * json)) (m : member_syntax)
  : list (jsstring * json) :=
  set_member members (literal_value (key_literal m))
    (JString (literal_value (value_literal m))).

Definition object_value (o : object_syntax) : json :=
  JObject (fold_left add_member (object_members o) []).

(** An array of objects, from its bracket to its closing bracket. *)
Record array_syntax : Type :=
  { array_inner_gap : jsstring;
    array_objects : list object_syntax }.

Definition array_ok (a : array_syntax) : bool :=
  gap_ok (array_inner_gap a) && forallb object_ok (array_objects a).

Definition array_text (a : array_syntax) : jsstring :=
  [91] ++ array_inner_gap a
  ++ comma_separated object_text (array_objects a) ++ [93].

Definition array_value (a : array_syntax) : json :=
  JArray (map object_value (array_objects a)).

Definition member_tokens_of (m : member_syntax) : list token :=
  [ TString (literal_value (key_literal m)); TColon;
    TString (literal_value (value_literal m)) ].

Definition object_tokens (o : object_syntax) : list token :=
  TLBrace
  :: match object_members o with
     | [] => []
     | m :: ms =>
         member_tokens_of m
         ++ flat_map (fun m' => TComma :: member_tokens_of m') ms
     end
  ++ [TRBrace].

Definition array_tokens (a : array_syntax) : list token :=
  TLBracket
  :: match array_objects a with
     | [] => []
     | o :: os =>
         object_tokens o ++ flat_map (fun o' => TComma :: object_tokens o') os
     end
  ++ [TRBracket].

(** A string written with plain characters only. *)
Definition plain (s : jsstring) : literal := map Plain s.

Definition spaced_member (key value : literal) : member_syntax :=
  {| key_gap := [32]; key_literal := key; colon_gap := [];
     value_gap := [32]; value_literal := value; member_end_gap := [32] |}.

Definition prompt_object (p : PosturePrompt) : object_syntax :=
  {| object_gap := [10; 32; 32];
     object_inner_gap := [];
     object_members :=
       [ spaced_member (plain (lit "title")) (plain (title p));
         spaced_member (plain (lit "prompt")) (plain (prompt p)) ];
     object_end_gap := [] |}.

(** Eight prompts, the first written with its members the other way
    round and with escapes in its title. *)
Definition eight_prompts_syntax : array_syntax :=
  {| array_inner_gap := [];
     array_objects :=
       {| object_gap := [9];
          object_inner_gap := [13; 10];
          object_members :=
            [ spaced_member (plain (lit "prompt"))
                (plain (lit "Make the person stand up straight."));
              spaced_member
                [ Plain 116; Unicode {| hex_val := 0; hex_upper := false |}
                               {| hex_val := 0; hex_upper := false |}
                               {| hex_val := 6; hex_upper := false |}
                               {| hex_val := 9; hex_upper := false |};
                  Plain 116; Plain 108; Plain 101 ]
                [ Plain 83; Plain 116; Plain 97; Plain 110; Plain 100;
                  Escaped ETab; Plain 84; Plain 97; Plain 108; Plain 108;
                  Unicode {| hex_val := 2; hex_upper := false |}
                    {| hex_val := 0; hex_upper := false |}
                    {| hex_val := 1; hex_upper := false |}
                    {| hex_val := 12; hex_upper := true |} ] ];
          object_end_gap := [32] |}
       :: map prompt_object (tl eight_prompts) |}.

Definition world_eight_prompts : World :=
  stub_world test_key (inr no_images)
    (inr {| candidates := None;
            response_text :=
              Some ([65279; 10] ++ array_text eight_prompts_syntax
                    ++ [10; 8232]) |}).

(** The world [w] with the credential removed. *)
Definition without_key (w : World) : World :=
  {| API_KEY := None;
     generateImages := generateImages w;
     generateContent := generateContent w |}.

(** A call that fails with the message [generic] after logging the
    missing-credential error under [label], the network untouched. *)
Definition fails_unattempted {A} (m : Async A) (generic label : jsstring)
  : Prop :=
  outcome m = Throw (Error generic)
  /\ trace m = [ConsoleError label (Error API_KEY_not_set)]
  /\ no_network_call (trace m) = true.

(** A call that fails with the message [generic] after one remote call,
    the value [e] it was rejected with going to the console only. *)
Definition fails_generic {A} (m : Async A) (call : remote_call)
    (generic label : jsstring) (e : thrown) : Prop :=
  outcome m = Throw (Error generic)
  /\ trace m = [NetworkCall call; ConsoleError label e].

Definition lacks_inlineData (q : Part) : Prop := inlineData q = None.

(** ** The component [App]

    The handlers of [App.tsx] run over the state cells they read and
    set.  A handler is followed from the event that starts it to its
    end, no other event coming in between. *)

Definition Handler (S A : Type) : Type :=
  S -> list event -> completion A * S * list event.

Definition hret {S A} (a : A) : Handler S A :=
  fun st tr => (Return a, st, tr).

Definition hbind {S A B} (m : Handler S A) (k : A -> Handler S B)
  : Handler S B :=
  fun st tr =>
    match m st tr with
    | (Return a, st', tr') => k a st' tr'
    | (Throw e, st', tr') => (Throw e, st', tr')
    end.

(** The values the closure of the handler holds. *)
Definition get {S} : Handler S S := fun st tr => (Return st, st, tr).

(** A call of a state setter. *)
Definition update {S} (f : S -> S) : Handler S unit :=
  fun st tr => (Return tt, f st, tr).

(** [await m] for a call [m] of the service. *)
Definition lift {S A} (m : Async A) : Handler S A :=
  fun st tr => let (c, tr') := m tr in (c, st, tr').

(** [try { body } catch (e) { handler } finally { final }] *)
Definition try_catch_finally {S A} (body : Handler S A)
    (handler : thrown -> Handler S A) (final : Handler S unit)
  : Handler S A :=
  fun st tr =>
    let '(c, st1, tr1) :=
      match body st tr with
      | (Throw e, st', tr') => handler e st' tr'
      | returned => returned
      end in
    match final st1 tr1 with
    | (Return _, st2, tr2) => (c, st2, tr2)
    | (Throw e, st2, tr2) => (Throw e, st2, tr2)
    end.

Notation "x <~ m ;; k" := (hbind m (fun x => k))
  (at level 61, m at next level, right associativity).
Notation "m ;;~ k" := (hbind m (fun _ => k))
  (at level 61, right associativity).

(** [a || b] on strings: [b] when [a] is undefined or empty. *)
Definition or_else (a : option jsstring) (b : jsstring) : jsstring :=
  if truthy a then template a else b.

(** [s.split(sep)] for a separator of one code unit. *)
Fixpoint split (sep : code_unit) (s : jsstring) : list jsstring :=
  match s with
  | [] => [[]]
  | c :: s' =>
      if c =? sep then [] :: split sep s'
      else match split sep s' with
           | segment :: segments => (c :: segment) :: segments
           | [] => [[c]]
           end
  end.

(** [editImage] as a caller reaches it at run time, where nothing keeps
    [undefined] or [null] out of [base64Image] and [mimeType]. *)
Definition editImage_untyped_request (base64Image mimeType : option jsstring)
    (prompt : jsstring) : GenerateContentParameters :=
  let imagePart :=
    {| inlineData := Some {| data := base64Image; mimeType := mimeType |};
       text := None |} in
  let textPart := {| inlineData := None; text := Some prompt |} in
  {| content_model := lit "gemini-2.5-flash-image";
     contents := ContentParts [imagePart; textPart];
     content_config :=
       {| responseModalities := Some [IMAGE];
          responseMimeType := None;
          responseSchema := None |} |}.

Definition editImage_untyped (w : World) (base64Image mimeType : option jsstring)
    (prompt : jsstring) : Async jsstring :=
  try_catch
    (ai <- getAiClient w ;;
     response <- await_generateContent w ai
                   (editImage_untyped_request base64Image mimeType prompt) ;;
     cands <- read "0" (candidates response) ;;
     cand <- read "content" (hd_error cands) ;;
     cont <- read "parts" (content cand) ;;
     ps <- read "Symbol.iterator" (parts cont) ;;
     match for_parts ps with
     | Some uri => ret uri
     | None =>
         throw (Error (lit
           "No edited image was generated. The response may have been blocked."))
     end)
    (fun error =>
       console_error (lit "Error editing image:") error ;;;
       throw (Error editImage_failed)).

Module App.

(** The cells under the comment [Generator state]. *)
Record Generator : Type :=
  { prompt : jsstring;
    imageUrl : option jsstring;
    isLoading : bool;
    error : option jsstring }.

(** The cells under the comment [Editor state]. *)
Record Editor : Type :=
  { uploadedImage : option jsstring;
    uploadedImageType : option jsstring;
    editedImageUrl : option jsstring;
    editPrompt : jsstring;
    isEditing : bool;
    editError : option jsstring }.

(** The cells under the comment [Prompts state]. *)
Record Prompts : Type :=
  { posturePrompts : json;
    isPromptsLoading : bool;
    promptsError : option jsstring }.

Definition setImageUrl (v : option jsstring) (st : Generator) : Generator :=
  {| prompt := prompt st; imageUrl := v;
     isLoading := isLoading st; error := error st |}.

Definition setIsLoading (v : bool) (st : Generator) : Generator :=
  {| prompt := prompt st; imageUrl := imageUrl st;
     isLoading := v; error := error st |}.

Definition setError (v : option jsstring) (st : Generator) : Generator :=
  {| prompt := prompt st; imageUrl := imageUrl st;
     isLoading := isLoading st; error := v |}.

Definition setEditedImageUrl (v : option jsstring) (st : Editor) : Editor :=
  {| uploadedImage := uploadedImage st;
     uploadedImageType := uploadedImageType st;
     editedImageUrl := v; editPrompt := editPrompt st;
     isEditing := isEditing st; editError := editError st |}.

Definition setIsEditing (v : bool) (st : Editor) : Editor :=
  {| uploadedImage := uploadedImage st;
     uploadedImageType := uploadedImageType st;
     editedImageUrl := editedImageUrl st; editPrompt := editPrompt st;
     isEditing := v; editError := editError st |}.

Definition setEditError (v : option jsstring) (st : Editor) : Editor :=
  {| uploadedImage := uploadedImage st;
     uploadedImageType := uploadedImageType st;
     editedImageUrl := editedImageUrl st; editPrompt := editPrompt st;
     isEditing := isEditing st; editError := v |}.

Definition setPosturePrompts (v : json) (st : Prompts) : Prompts :=
  {| posturePrompts := v; isPromptsLoading := isPromptsLoading st;
     promptsError := promptsError st |}.

Definition setIsPromptsLoading (v : bool) (st : Prompts) : Prompts :=
  {| posturePrompts := posturePrompts st; isPromptsLoading := v;
     promptsError := promptsError st |}.

Definition setPromptsError (v : option jsstring) (st : Prompts) : Prompts :=
  {| posturePrompts := posturePrompts st;
     isPromptsLoading := isPromptsLoading st; promptsError := v |}.

Definition unknown_error : jsstring := lit "An unknown error occurred.".

(** [!s.trim()] *)
Definition blank (s : jsstring) : bool := negb (truthy (Some (trim s))).

Section Handlers.

Variable w : World.

(** The text the engine puts in the [message] of its own errors. *)
Variable native_message : thrown -> jsstring.

(** [e.message] *)
Definition message (e : thrown) : option jsstring :=
  match e with
  | Error m => Some m
  | ApiError _ m => Some m
  | TypeError _ | SyntaxError => Some (native_message e)
  end.

Definition fetchPrompts : Handler Prompts unit :=
  try_catch_finally
    (update (setIsPromptsLoading true) ;;~
     update (setPromptsError None) ;;~
     prompts <~ lift (getPosturePrompts w) ;;
     update (setPosturePrompts prompts))
    (fun e =>
       update (setPromptsError (Some (or_else (message e) unknown_error))))
    (update (setIsPromptsLoading false)).

Definition handleGenerateImage : Handler Generator unit :=
  st <~ get ;;
  if blank (prompt st) || isLoading st then hret tt
  else
    update (setIsLoading true) ;;~
    update (setError None) ;;~
    update (setImageUrl None) ;;~
    try_catch_finally
      (url <~ lift (generateImage w (prompt st)) ;;
       update (setImageUrl (Some url)))
      (fun e =>
         update (setError (Some (or_else (message e) unknown_error))))
      (update (setIsLoading false)).

Definition handleEditImage : Handler Editor unit :=
  st <~ get ;;
  if blank (editPrompt st) || negb (truthy (uploadedImage st))
     || isEditing st || negb (truthy (uploadedImageType st))
  then hret tt
  else
    update (setIsEditing true) ;;~
    update (setEditError None) ;;~
    update (setEditedImageUrl None) ;;~
    try_catch_finally
      (img <~ lift (read "split" (uploadedImage st)) ;;
       let base64Data := nth_error (split 44 img) 1 in
       url <~ lift (editImage_untyped w base64Data (uploadedImageType st)
                      (editPrompt st)) ;;
       update (setEditedImageUrl (Some url)))
      (fun e =>
         update (setEditError (Some (or_else (message e) unknown_error))))
      (update (setIsEditing false)).

End Handlers.

(** What a result panel holds. *)
Inductive element : Type :=
| Spinner
| ErrorMessage (msg : jsstring)
| Img (src : jsstring)
| Placeholder (caption : string).

(** [{cond && element}] *)
Definition shown (cond : bool) (e : element) : list element :=
  if cond then [e] else [].

Definition generator_result (st : Generator) : list element :=
  shown (isLoading st) Spinner
  ++ shown (truthy (error st)) (ErrorMessage (template (error st)))
  ++ shown (negb (isLoading st) && negb (truthy (error st))
            && truthy (imageUrl st))
       (Img (template (imageUrl st)))
  ++ shown (negb (isLoading st) && negb (truthy (error st))
            && negb (truthy (imageUrl st)))
       (Placeholder "Your generated image will appear here").

Definition editor_result (st : Editor) : list element :=
  shown (isEditing st) Spinner
  ++ shown (truthy (editError st)) (ErrorMessage (template (editError st)))
  ++ shown (negb (isEditing st) && negb (truthy (editError st))
            && truthy (editedImageUrl st))
       (Img (template (editedImageUrl st)))
  ++ shown (negb (isEditing st) && negb (truthy (editError st))
            && negb (truthy (editedImageUrl st)))
       (Placeholder "Your edited image will appear here").

(** [disabled] of the button [Edit Image]. *)
Definition edit_button_disabled (st : Editor) : bool :=
  isEditing st || blank (editPrompt st) || negb (truthy (uploadedImage st)).

(** [disabled] of the button [Generate Image]. *)
Definition generate_button_disabled (st : Generator) : bool :=
  isLoading st || blank (prompt st).

End App.

Definition no_comma (s : jsstring) : bool :=
  forallb (fun c => negb (c =? 44)) s.

Definition engine_text : thrown -> jsstring :=
  fun _ => lit "Cannot read properties of undefined".

(** Running a handler from a state, the trace empty. *)
Definition completion_of {S A} (h : Handler S A) (st : S) : completion A :=
  fst (fst (h st [])).
Definition final_state {S A} (h : Handler S A) (st : S) : S :=
  snd (fst (h st [])).
Definition handler_trace {S A} (h : Handler S A) (st : S) : list event :=
  snd (h st []).

Definition red_cube : App.Generator :=
  {| App.prompt := lit "a red cube"; App.imageUrl := None;
     App.isLoading := false; App.error := None |}.

Definition rotate_png : App.Editor :=
  {| App.uploadedImage := Some (lit "data:image/png;base64,iVBORw0KGgo=");
     App.uploadedImageType := Some (lit "image/png");
     App.editedImageUrl := None;
     App.editPrompt := lit "rotate 90 degrees";
     App.isEditing := false;
     App.editError := None |}.

(** The cells of [Prompts state] when the component mounts. *)
Definition prompts_on_mount : App.Prompts :=
  {| App.posturePrompts := JArray []; App.isPromptsLoading := true;
     App.promptsError := None |}.

Definition world_png_edit : World :=
  stub_world test_key (inr one_jpeg)
    (inr (content_response
            [text_part "ok"; image_part "image/png" "UklGRg=="])).

(** ** What a run leaves in the trace *)

Definition network_calls (tr : list event) : list remote_call :=
  flat_map (fun ev => match ev with
                      | NetworkCall c => [c]
                      | ConsoleError _ _ => []
                      end) tr.

Definition console_errors (tr : list event) : list (jsstring * thrown) :=
  flat_map (fun ev => match ev with
                      | NetworkCall _ => []
                      | ConsoleError label e => [(label, e)]
                      end) tr.

(** The two ways a wrapper can end: with a value and a silent console,
    or with its generic error after one line on the console. *)
Definition settles {A} (m : Async A) (generic label : jsstring) : Prop :=
  (exists a, outcome m = Return a /\ console_errors (trace m) = [])
  \/ (outcome m = Throw (Error generic)
      /\ exists e, console_errors (trace m) = [(label, e)]).

Definition starts_with (prefix s : jsstring) : Prop :=
  exists tail, s = prefix ++ tail.

(** ** Running the wrappers *)

Arguments lit : simpl never.

Ltac unfold_service :=
  cbv [outcome trace run generateImage editImage getPosturePrompts
       try_catch bind ret throw emit console_error read getAiClient
       await_generateImages await_generateContent client fst snd negb
       hd_error app].

Lemma getAiClient_missing (w : World) (tr : list event) :
  truthy (API_KEY w) = false ->
  getAiClient w tr = (Throw (Error API_KEY_not_set), tr).
Proof. intros H. unfold getAiClient. rewrite H. reflexivity. Qed.

Lemma run_generateImage_missing (w : World) (p : jsstring) :
  truthy (API_KEY w) = false ->
  run (generateImage w p)
  = (Throw (Error generateImage_failed),
     [ConsoleError (lit "Error generating image:") (Error API_KEY_not_set)]).
Proof. intros H. unfold_service. rewrite H. reflexivity. Qed.

Lemma run_editImage_missing (w : World) (b m p : jsstring) :
  truthy (API_KEY w) = false ->
  run (editImage w b m p)
  = (Throw (Error editImage_failed),
     [ConsoleError (lit "Error editing image:") (Error API_KEY_not_set)]).
Proof. intros H. unfold_service. rewrite H. reflexivity. Qed.

Lemma run_getPosturePrompts_missing (w : World) :
  truthy (API_KEY w) = false ->
  run (getPosturePrompts w)
  = (Throw (Error getPosturePrompts_failed),
     [ConsoleError (lit "Error fetching posture prompts:")
        (Error API_KEY_not_set)]).
Proof. intros H. unfold_service. rewrite H. reflexivity. Qed.

(** With the credential set, each wrapper is decided by the answer of the
    remote service alone. *)
Section Credential.

Variable w : World.
Hypothesis credential : truthy (API_KEY w) = true.

Lemma run_generateImage_present (p : jsstring) :
  run (generateImage w p)
  = let call := NetworkCall
                  (CallGenerateImages (client w) (generateImages_request p)) in
    let failed e :=
      (Throw (Error generateImage_failed),
       [call; ConsoleError (lit "Error generating image:") e]) in
    match generateImages w (client w) (generateImages_request p) with
    | inl e => failed e
    | inr response =>
        match generatedImages response with
        | Some (first :: _) =>
            match image first with
            | Some img =>
                (Return (lit "data:image/jpeg;base64,"
                         ++ template (imageBytes img)), [call])
            | None => failed (TypeError "imageBytes")
            end
        | _ => failed (Error (lit
                 "No image was generated. The response may have been blocked."))
        end
    end.
Proof.
  unfold_service. rewrite credential. cbv beta iota.
  destruct (generateImages w _ _) as [e | response]; [reflexivity|].
  destruct (generatedImages response) as [[|first rest]|]; try reflexivity.
  destruct (image first); reflexivity.
Qed.

Lemma run_editImage_present (b m p : jsstring) :
  run (editImage w b m p)
  = let call := NetworkCall
                  (CallGenerateContent (client w) (editImage_request b m p)) in
    let failed e :=
      (Throw (Error editImage_failed),
       [call; ConsoleError (lit "Error editing image:") e]) in
    match generateContent w (client w) (editImage_request b m p) with
    | inl e => failed e
    | inr response =>
        match candidates response with
        | None => failed (TypeError "0")
        | Some [] => failed (TypeError "content")
        | Some (cand :: _) =>
            match content cand with
            | None => failed (TypeError "parts")
            | Some cont =>
                match parts cont with
                | None => failed (TypeError "Symbol.iterator")
                | Some ps =>
                    match for_parts ps with
                    | Some uri => (Return uri, [call])
                    | None => failed (Error (lit
                        "No edited image was generated. The response may have been blocked."))
                    end
                end
            end
        end
    end.
Proof.
  unfold_service. rewrite credential. cbv beta iota.
  destruct (generateContent w _ _) as [e | response]; [reflexivity|].
  destruct (candidates response) as [[|cand rest]|]; try reflexivity.
  destruct (content cand) as [cont|]; [|reflexivity].
  destruct (parts cont) as [ps|]; [|reflexivity].
  destruct (for_parts ps); reflexivity.
Qed.

Lemma run_getPosturePrompts_present :
  run (getPosturePrompts w)
  = let call := NetworkCall
                  (CallGenerateContent (client w) getPosturePrompts_request) in
    let failed e :=
      (Throw (Error getPosturePrompts_failed),
       [call; ConsoleError (lit "Error fetching posture prompts:") e]) in
    match generateContent w (client w) getPosturePrompts_request with
    | inl e => failed e
    | inr response =>
        match response_text response with
        | None => failed (TypeError "trim")
        | Some txt =>
            match JSON.parse (trim txt) with
            | Some prompts => (Return prompts, [call])
            | None => failed SyntaxError
            end
        end
    end.
Proof.
  unfold_service. rewrite credential. cbv beta iota.
  destruct (generateContent w _ _) as [e | response]; [reflexivity|].
  destruct (response_text response) as [txt|]; [|reflexivity].
  destruct (JSON.parse (trim txt)); reflexivity.
Qed.

End Credential.

(** The loop returns at the first part that carries [inlineData]. *)
Lemma for_parts_first (pre post : list Part) (part : Part) (blob : Blob) :
  Forall lacks_inlineData pre ->
  inlineData part = Some blob ->
  for_parts (pre ++ part :: post)
  = Some (lit "data:" ++ template (mimeType blob)
          ++ lit ";base64," ++ template (data blob)).
Proof.
  intros Hpre Hpart. induction Hpre as [|q pre Hq _ IH]; simpl.
  - rewrite Hpart. reflexivity.
  - unfold lacks_inlineData in Hq. rewrite Hq. exact IH.
Qed.

Lemma for_parts_none (ps : list Part) :
  for_parts ps = None <-> Forall lacks_inlineData ps.
Proof.
  induction ps as [|q ps IH]; simpl.
  - split; auto.
  - destruct (inlineData q) eqn:E.
    + split; [discriminate|]. intros H. inversion H as [|? ? Hq _].
      unfold lacks_inlineData in Hq. congruence.
    + rewrite IH. split; intros H.
      * constructor; assumption.
      * inversion H; assumption.
Qed.

(** ** The missing credential *)

(** C1, as stated, fails: without a credential [generateImage] does not
    fail with the missing-credential error but with its generic message,
    because [getAiClient] is called inside the [try] block. *)
Lemma missing_credential_is_masked :
  outcome (generateImage world_without_key (lit "a red cube"))
  = Throw (Error generateImage_failed)
  /\ outcome (generateImage world_without_key (lit "a red cube"))
     <> Throw (Error API_KEY_not_set).
Proof. split; [reflexivity | discriminate]. Qed.

(** C1, amended: when the credential is absent, each of the three
    operations fails with its own generic message, the missing-credential
    error reaches the console only, and no remote call is attempted. *)
Theorem missing_credential_fails_before_network (w : World) :
  API_KEY w = None ->
  (forall p,
     fails_unattempted (generateImage w p)
       generateImage_failed (lit "Error generating image:"))
  /\ (forall b m p,
        fails_unattempted (editImage w b m p)
          editImage_failed (lit "Error editing image:"))
  /\ fails_unattempted (getPosturePrompts w)
       getPosturePrompts_failed (lit "Error fetching posture prompts:").
Proof.
  intros H.
  assert (Hk : truthy (API_KEY w) = false) by (rewrite H; reflexivity).
  unfold fails_unattempted, outcome, trace.
  repeat split; intros;
    rewrite ?run_generateImage_missing, ?run_editImage_missing,
      ?run_getPosturePrompts_missing by exact Hk; reflexivity.
Qed.

Lemma missing_credential_fails_before_network_witness :
  API_KEY world_without_key = None
  /\ fails_unattempted (getPosturePrompts world_without_key)
       getPosturePrompts_failed (lit "Error fetching posture prompts:").
Proof.
  split; [reflexivity|].
  apply (missing_credential_fails_before_network world_without_key).
  reflexivity.
Defined.

(** C10, as stated, fails: with the empty string as credential
    [editImage] fails with its generic message, not with the
    missing-credential error. *)
Lemma empty_credential_is_masked :
  outcome (editImage world_empty_key (lit "AAAA") (lit "image/png")
             (lit "rotate 90 degrees"))
  = Throw (Error editImage_failed)
  /\ outcome (editImage world_empty_key (lit "AAAA") (lit "image/png")
                (lit "rotate 90 degrees"))
     <> Throw (Error API_KEY_not_set).
Proof. split; [reflexivity | discriminate]. Qed.

(** C10, amended: a credential equal to the empty string is treated
    exactly like an absent one.  [getAiClient] throws the
    missing-credential error, and each of the three operations runs as
    it does without a credential: it fails with its generic message and
    attempts no remote call. *)
Theorem empty_credential_like_absent (w : World) :
  API_KEY w = Some [] ->
  getAiClient w [] = (Throw (Error API_KEY_not_set), [])
  /\ (forall p,
        run (generateImage w p) = run (generateImage (without_key w) p)
        /\ fails_unattempted (generateImage w p)
             generateImage_failed (lit "Error generating image:"))
  /\ (forall b m p,
        run (editImage w b m p) = run (editImage (without_key w) b m p)
        /\ fails_unattempted (editImage w b m p)
             editImage_failed (lit "Error editing image:"))
  /\ (run (getPosturePrompts w) = run (getPosturePrompts (without_key w))
      /\ fails_unattempted (getPosturePrompts w)
           getPosturePrompts_failed (lit "Error fetching posture prompts:")).
Proof.
  intros H.
  assert (Hk : truthy (API_KEY w) = false) by (rewrite H; reflexivity).
  assert (Hk0 : truthy (API_KEY (without_key w)) = false) by reflexivity.
  unfold fails_unattempted, outcome, trace.
  split; [apply getAiClient_missing; exact Hk|].
  repeat split; intros;
    rewrite ?(run_generateImage_missing (without_key w)),
      ?(run_editImage_missing (without_key w)),
      ?(run_getPosturePrompts_missing (without_key w)) by exact Hk0;
    rewrite ?run_generateImage_missing, ?run_editImage_missing,
      ?run_getPosturePrompts_missing by exact Hk; reflexivity.
Qed.

Lemma empty_credential_like_absent_witness :
  API_KEY world_empty_key = Some []
  /\ getAiClient world_empty_key [] = (Throw (Error API_KEY_not_set), []).
Proof.
  split; [reflexivity|].
  apply (empty_credential_like_absent world_empty_key).
  reflexivity.
Defined.

(** ** [generateImage] *)

(** C4, as stated, fails: a response that holds artifacts, one of them
    with real image bytes, makes [generateImage] fail when the first
    artifact has no [image]: the code reads
    [generatedImages[0].image.imageBytes] unchecked. *)
Lemma first_artifact_without_image_fails :
  outcome (generateImage
             (stub_world test_key
                (inr {| generatedImages :=
                          Some [ {| image := None |};
                                 {| image := Some {| imageBytes :=
                                      Some (lit "/9j/4AAQSkZJRg==") |} |} ] |})
                (inr no_content))
             (lit "a red cube"))
  = Throw (Error generateImage_failed).
Proof. reflexivity. Qed.

(** C4, amended: when the remote call answers with at least one
    artifact and the first artifact carries its image bytes,
    [generateImage] returns the JPEG data-URI prefix followed by those
    bytes (for every prompt, empty or not). *)
Theorem generateImage_first_artifact (w : World) (p : jsstring)
    (response : GenerateImagesResponse) (first : GeneratedImage)
    (rest : list GeneratedImage) (img : Image) (bytes : jsstring) :
  truthy (API_KEY w) = true ->
  generateImages w (client w) (generateImages_request p) = inr response ->
  generatedImages response = Some (first :: rest) ->
  image first = Some img ->
  imageBytes img = Some bytes ->
  outcome (generateImage w p)
  = Return (lit "data:image/jpeg;base64," ++ bytes).
Proof.
  intros Hkey Hcall Himgs Himg Hbytes. unfold outcome.
  rewrite run_generateImage_present by exact Hkey.
  cbv zeta. rewrite Hcall, Himgs, Himg, Hbytes. reflexivity.
Qed.

Lemma generateImage_first_artifact_witness :
  outcome (generateImage (stub_world test_key (inr one_jpeg) (inr no_content))
             (lit "a red cube"))
  = Return (lit "data:image/jpeg;base64,/9j/4AAQSkZJRg==").
Proof.
  apply (generateImage_first_artifact
           (stub_world test_key (inr one_jpeg) (inr no_content))
           (lit "a red cube") one_jpeg
           {| image := Some {| imageBytes := Some (lit "/9j/4AAQSkZJRg==") |} |}
           [] {| imageBytes := Some (lit "/9j/4AAQSkZJRg==") |}
           (lit "/9j/4AAQSkZJRg==")); reflexivity.
Defined.

(** C5: when the remote call completes without error and yields no
    artifact (the list is missing or empty), [generateImage] fails with
    its generic message; it returns no value. *)
Theorem generateImage_zero_artifacts (w : World) (p : jsstring)
    (response : GenerateImagesResponse) :
  truthy (API_KEY w) = true ->
  generateImages w (client w) (generateImages_request p) = inr response ->
  generatedImages response = None \/ generatedImages response = Some [] ->
  outcome (generateImage w p) = Throw (Error generateImage_failed).
Proof.
  intros Hkey Hcall Hzero. unfold outcome.
  rewrite run_generateImage_present by exact Hkey.
  cbv zeta. rewrite Hcall. destruct Hzero as [-> | ->]; reflexivity.
Qed.

Lemma generateImage_zero_artifacts_witness :
  outcome (generateImage
             (stub_world test_key (inr {| generatedImages := Some [] |})
                (inr no_content))
             (lit "a red cube"))
  = Throw (Error generateImage_failed).
Proof.
  apply (generateImage_zero_artifacts
           (stub_world test_key (inr {| generatedImages := Some [] |})
              (inr no_content))
           (lit "a red cube") {| generatedImages := Some [] |});
    [reflexivity | reflexivity | right; reflexivity].
Defined.

(** X5: an artifact without [image] makes the read of [imageBytes]
    fault; the fault is caught like any other error, so the call fails
    with the generic message although the list of artifacts is not
    empty. *)
Lemma generateImage_artifact_without_image (w : World) (p : jsstring)
    (response : GenerateImagesResponse) (first : GeneratedImage)
    (rest : list GeneratedImage) :
  truthy (API_KEY w) = true ->
  generateImages w (client w) (generateImages_request p) = inr response ->
  generatedImages response = Some (first :: rest) ->
  image first = None ->
  outcome (generateImage w p) = Throw (Error generateImage_failed).
Proof.
  intros Hkey Hcall Himgs Himg. unfold outcome.
  rewrite run_generateImage_present by exact Hkey.
  cbv zeta. rewrite Hcall, Himgs, Himg. reflexivity.
Qed.

(** ** [editImage] *)

(** C3: when the parts of the response hold a part with inline image
    data, [editImage] returns the data of the first such part as a data
    URI under that part's own MIME type; the parts before it, the parts
    after it and the MIME type of the input play no role. *)
Theorem editImage_first_inline_part (w : World) (b m p : jsstring)
    (response : GenerateContentResponse) (cand : Candidate)
    (rest : list Candidate) (cont : Content) (pre post : list Part)
    (part : Part) (mime bytes : jsstring) :
  truthy (API_KEY w) = true ->
  generateContent w (client w) (editImage_request b m p) = inr response ->
  candidates response = Some (cand :: rest) ->
  content cand = Some cont ->
  parts cont = Some (pre ++ part :: post) ->
  Forall lacks_inlineData pre ->
  inlineData part = Some {| data := Some bytes; mimeType := Some mime |} ->
  outcome (editImage w b m p)
  = Return (lit "data:" ++ mime ++ lit ";base64," ++ bytes).
Proof.
  intros Hkey Hcall Hcands Hcont Hparts Hpre Hpart. unfold outcome.
  rewrite run_editImage_present by exact Hkey.
  cbv zeta. rewrite Hcall, Hcands, Hcont, Hparts.
  rewrite (for_parts_first pre post part _ Hpre Hpart). reflexivity.
Qed.

Lemma editImage_first_inline_part_witness :
  outcome (editImage
             (stub_world test_key (inr no_images)
                (inr (content_response
                        [ text_part "ok";
                          image_part "image/png" "iVBORw0KGgo=";
                          image_part "image/webp" "UklGRg==" ])))
             (lit "/9j/4AAQSkZJRg==") (lit "image/jpeg")
             (lit "rotate 90 degrees"))
  = Return (lit "data:image/png;base64,iVBORw0KGgo=").
Proof.
  apply (editImage_first_inline_part
           (stub_world test_key (inr no_images)
              (inr (content_response
                      [ text_part "ok";
                        image_part "image/png" "iVBORw0KGgo=";
                        image_part "image/webp" "UklGRg==" ])))
           (lit "/9j/4AAQSkZJRg==") (lit "image/jpeg")
           (lit "rotate 90 degrees")
           (content_response
              [ text_part "ok";
                image_part "image/png" "iVBORw0KGgo=";
                image_part "image/webp" "UklGRg==" ])
           {| content := Some {| parts := Some
                [ text_part "ok";
                  image_part "image/png" "iVBORw0KGgo=";
                  image_part "image/webp" "UklGRg==" ] |} |}
           []
           {| parts := Some
                [ text_part "ok";
                  image_part "image/png" "iVBORw0KGgo=";
                  image_part "image/webp" "UklGRg==" ] |}
           [text_part "ok"] [image_part "image/webp" "UklGRg=="]
           (image_part "image/png" "iVBORw0KGgo=")
           (lit "image/png") (lit "iVBORw0KGgo="));
    try reflexivity.
  repeat constructor.
Defined.

(** C6: when every part of the response lacks inline image data,
    [editImage] fails with its generic message. *)
Theorem editImage_no_inline_part (w : World) (b m p : jsstring)
    (response : GenerateContentResponse) (cand : Candidate)
    (rest : list Candidate) (cont : Content) (ps : list Part) :
  truthy (API_KEY w) = true ->
  generateContent w (client w) (editImage_request b m p) = inr response ->
  candidates response = Some (cand :: rest) ->
  content cand = Some cont ->
  parts cont = Some ps ->
  Forall lacks_inlineData ps ->
  outcome (editImage w b m p) = Throw (Error editImage_failed).
Proof.
  intros Hkey Hcall Hcands Hcont Hparts Hnone. unfold outcome.
  rewrite run_editImage_present by exact Hkey.
  cbv zeta. rewrite Hcall, Hcands, Hcont, Hparts.
  apply for_parts_none in Hnone. rewrite Hnone. reflexivity.
Qed.

Lemma editImage_no_inline_part_witness :
  outcome (editImage
             (stub_world test_key (inr no_images)
                (inr (content_response [text_part "I cannot"; text_part "do that"])))
             (lit "/9j/4AAQSkZJRg==") (lit "image/jpeg")
             (lit "rotate 90 degrees"))
  = Throw (Error editImage_failed).
Proof.
  apply (editImage_no_inline_part
           (stub_world test_key (inr no_images)
              (inr (content_response
                      [text_part "I cannot"; text_part "do that"])))
           (lit "/9j/4AAQSkZJRg==") (lit "image/jpeg")
           (lit "rotate 90 degrees")
           (content_response [text_part "I cannot"; text_part "do that"])
           {| content := Some {| parts := Some
                [text_part "I cannot"; text_part "do that"] |} |}
           []
           {| parts := Some [text_part "I cannot"; text_part "do that"] |}
           [text_part "I cannot"; text_part "do that"]);
    try reflexivity.
  repeat constructor.
Defined.

(** C9: [editImage] lets no exception other than its generic error
    escape, whatever the remote service does; in particular a response
    without candidates, or whose first candidate has no content or no
    parts, makes the call fail with that same generic error. *)
Theorem editImage_contains_faults (w : World) (b m p : jsstring) :
  (forall e, outcome (editImage w b m p) = Throw e ->
             e = Error editImage_failed)
  /\ (forall response,
        truthy (API_KEY w) = true ->
        generateContent w (client w) (editImage_request b m p)
        = inr response ->
        no_part_list response ->
        outcome (editImage w b m p) = Throw (Error editImage_failed)).
Proof.
  unfold outcome. split.
  - intros e. destruct (truthy (API_KEY w)) eqn:Hkey.
    + rewrite run_editImage_present by exact Hkey. cbv zeta.
      destruct (generateContent w _ _) as [e0 | response];
        [simpl; congruence|].
      destruct (candidates response) as [[|cand rest]|];
        try (simpl; congruence).
      destruct (content cand) as [cont|]; [|simpl; congruence].
      destruct (parts cont) as [ps|]; [|simpl; congruence].
      destruct (for_parts ps); simpl; congruence.
    + rewrite run_editImage_missing by exact Hkey. simpl. congruence.
  - intros response Hkey Hcall Hbad.
    rewrite run_editImage_present by exact Hkey. cbv zeta. rewrite Hcall.
    destruct Hbad as [-> | [-> | (cand & rest & -> & Hc)]];
      try reflexivity.
    destruct Hc as [-> | (cont & -> & ->)]; reflexivity.
Qed.

Lemma editImage_contains_faults_witness :
  outcome (editImage world_no_candidates (lit "AAAA") (lit "image/png")
             (lit "rotate 90 degrees"))
  = Throw (Error editImage_failed).
Proof.
  apply (editImage_contains_faults world_no_candidates (lit "AAAA")
           (lit "image/png") (lit "rotate 90 degrees"))
    with (response := {| candidates := Some []; response_text := None |});
    [reflexivity | reflexivity | right; left; reflexivity].
Defined.

(** ** Errors of the remote call *)

(** C8: whatever the remote call is rejected with, each of the three
    operations catches it and fails with its own fixed message, which
    does not depend on the rejection; the original value goes to the
    console only. *)
Theorem remote_errors_become_generic (w : World) (e : thrown) :
  truthy (API_KEY w) = true ->
  (forall p,
     generateImages w (client w) (generateImages_request p) = inl e ->
     fails_generic (generateImage w p)
       (CallGenerateImages (client w) (generateImages_request p))
       generateImage_failed (lit "Error generating image:") e)
  /\ (forall b m p,
        generateContent w (client w) (editImage_request b m p) = inl e ->
        fails_generic (editImage w b m p)
          (CallGenerateContent (client w) (editImage_request b m p))
          editImage_failed (lit "Error editing image:") e)
  /\ (generateContent w (client w) getPosturePrompts_request = inl e ->
      fails_generic (getPosturePrompts w)
        (CallGenerateContent (client w) getPosturePrompts_request)
        getPosturePrompts_failed (lit "Error fetching posture prompts:") e).
Proof.
  intros Hkey. unfold fails_generic, outcome, trace.
  split; [|split].
  - intros p Hcall. rewrite run_generateImage_present by exact Hkey.
    cbv zeta. rewrite Hcall. split; reflexivity.
  - intros b m p Hcall. rewrite run_editImage_present by exact Hkey.
    cbv zeta. rewrite Hcall. split; reflexivity.
  - intros Hcall. rewrite run_getPosturePrompts_present by exact Hkey.
    cbv zeta. rewrite Hcall. split; reflexivity.
Qed.

Lemma remote_errors_become_generic_witness :
  fails_generic (generateImage world_quota_exceeded (lit "a red cube"))
    (CallGenerateImages (client world_quota_exceeded)
       (generateImages_request (lit "a red cube")))
    generateImage_failed (lit "Error generating image:") quota_exceeded.
Proof.
  apply (remote_errors_become_generic world_quota_exceeded quota_exceeded);
    reflexivity.
Defined.

(** ** [getPosturePrompts] *)

(** C2, as stated, fails: a response text that is valid JSON but whose
    only element has no [prompt] is returned as it is; the call does not
    fail. *)
Lemma partial_prompt_is_returned :
  outcome (getPosturePrompts world_partial_prompt)
  = Return (JArray [JObject [(lit "title", JString (lit "Stand Tall"))]])
  /\ is_PosturePrompt_array
       (JArray [JObject [(lit "title", JString (lit "Stand Tall"))]])
     = false.
Proof. split; reflexivity. Qed.

(** C2, amended: [getPosturePrompts] validates nothing.  Once the remote
    call has answered, the call returns the value [JSON.parse] gives for
    the trimmed response text, whatever its shape, and fails with its
    generic message exactly when the response has no text or the trimmed
    text is not valid JSON. *)
Theorem getPosturePrompts_returns_parse (w : World)
    (response : GenerateContentResponse) :
  truthy (API_KEY w) = true ->
  generateContent w (client w) getPosturePrompts_request = inr response ->
  outcome (getPosturePrompts w)
  = match response_text response with
    | Some txt =>
        match JSON.parse (trim txt) with
        | Some v => Return v
        | None => Throw (Error getPosturePrompts_failed)
        end
    | None => Throw (Error getPosturePrompts_failed)
    end.
Proof.
  intros Hkey Hcall. unfold outcome.
  rewrite run_getPosturePrompts_present by exact Hkey.
  cbv zeta. rewrite Hcall.
  destruct (response_text response) as [txt|]; [|reflexivity].
  destruct (JSON.parse (trim txt)); reflexivity.
Qed.

Lemma getPosturePrompts_returns_parse_witness :
  outcome (getPosturePrompts world_partial_prompt)
  = Return (JArray [JObject [(lit "title", JString (lit "Stand Tall"))]]).
Proof.
  apply (getPosturePrompts_returns_parse world_partial_prompt
           (json_response "[{'title': 'Stand Tall'}]"));
    reflexivity.
Defined.

(** ** The text of a list of prompts is read back as that list *)

Lemma hex_value_hex_digit (d : N) :
  d < 16 -> hex_value (hex_digit d) = Some d.
Proof.
  intros Hd. unfold hex_digit, hex_value.
  destruct (N.ltb_spec d 10).
  - replace ((48 <=? 48 + d) && (48 + d <=? 57)) with true.
    + f_equal. lia.
    + symmetry. apply andb_true_iff. split; apply N.leb_le; lia.
  - replace ((48 <=? 87 + d) && (87 + d <=? 57)) with false.
    replace ((65 <=? 87 + d) && (87 + d <=? 70)) with false.
    replace ((97 <=? 87 + d) && (87 + d <=? 102)) with true.
    + f_equal. lia.
    + symmetry. apply andb_true_iff. split; apply N.leb_le; lia.
    + symmetry. apply andb_false_iff. right. apply N.leb_gt. lia.
    + symmetry. apply andb_false_iff. right. apply N.leb_gt. lia.
Qed.

Lemma lex_from_cons (st : lex_state) (toks : list token) (c : code_unit)
    (s : jsstring) :
  lex_from st toks (c :: s)
  = match lex_step st toks c with
    | Some (st', toks') => lex_from st' toks' s
    | None => None
    end.
Proof. reflexivity. Qed.

Lemma lex_step_unicode (acc : jsstring) (toks : list token) (count : nat)
    (value : N) (c : code_unit) (d : N) :
  hex_value c = Some d ->
  lex_step (LUnicode acc count value) toks c
  = match count with
    | 3%nat => Some (LString (16 * value + d :: acc), toks)
    | _ => Some (LUnicode acc (S count) (16 * value + d), toks)
    end.
Proof. intros H. unfold lex_step. rewrite H. reflexivity. Qed.

Lemma lex_step_plain (acc : jsstring) (toks : list token) (c : code_unit) :
  c <> 34 -> c <> 92 -> 32 <= c ->
  lex_step (LString acc) toks c = Some (LString (c :: acc), toks).
Proof.
  intros H34 H92 Hge. unfold lex_step.
  apply N.eqb_neq in H34, H92. apply N.ltb_ge in Hge.
  rewrite H34, H92, Hge. reflexivity.
Qed.

Lemma lex_quote_unit (acc : jsstring) (toks : list token) (c : code_unit)
    (rest : jsstring) :
  lex_from (LString acc) toks (quote_unit c ++ rest)
  = lex_from (LString (c :: acc)) toks rest.
Proof.
  unfold quote_unit.
  destruct (N.eqb_spec c 34) as [-> | H34]; [reflexivity|].
  destruct (N.eqb_spec c 92) as [-> | H92]; [reflexivity|].
  destruct (N.ltb_spec c 32) as [Hlt | Hge]; cbn [app].
  - assert (H1 : c / 16 < 16)
      by (apply N.Div0.div_lt_upper_bound; lia).
    assert (H2 : c mod 16 < 16) by (apply N.mod_lt; lia).
    rewrite lex_from_cons.
    change (lex_step (LString acc) toks 92) with (Some (LEscape acc, toks)).
    cbv beta iota. rewrite lex_from_cons.
    change (lex_step (LEscape acc) toks 117)
      with (Some (LUnicode acc 0 0, toks)).
    cbv beta iota. rewrite lex_from_cons.
    change (lex_step (LUnicode acc 0 0) toks 48)
      with (Some (LUnicode acc 1 0, toks)).
    cbv beta iota. rewrite lex_from_cons.
    change (lex_step (LUnicode acc 1 0) toks 48)
      with (Some (LUnicode acc 2 0, toks)).
    cbv beta iota.
    rewrite lex_from_cons,
      (lex_step_unicode _ _ _ _ _ _ (hex_value_hex_digit _ H1)).
    cbv beta iota.
    rewrite lex_from_cons,
      (lex_step_unicode _ _ _ _ _ _ (hex_value_hex_digit _ H2)).
    cbv beta iota.
    replace (16 * (16 * 0 + c / 16) + c mod 16) with c; [reflexivity|].
    rewrite (N.div_mod c 16) at 1 by lia. lia.
  - rewrite lex_from_cons, lex_step_plain by assumption. reflexivity.
Qed.

Lemma lex_string_body (s : jsstring) :
  forall (acc : jsstring) (toks : list token) (rest : jsstring),
    lex_from (LString acc) toks (flat_map quote_unit s ++ 34 :: rest)
    = lex_from LStart (TString (rev acc ++ s) :: toks) rest.
Proof.
  induction s as [|c s IH]; intros acc toks rest.
  - cbn [flat_map app]. rewrite lex_from_cons, app_nil_r. reflexivity.
  - cbn [flat_map]. rewrite <- app_assoc, lex_quote_unit, IH.
    cbn [rev]. rewrite <- app_assoc. reflexivity.
Qed.

Lemma lex_quote (s : jsstring) (toks : list token) (rest : jsstring) :
  lex_from LStart toks (quote s ++ rest)
  = lex_from LStart (TString s :: toks) rest.
Proof.
  unfold quote. cbn [app]. rewrite <- app_assoc. cbn [app].
  rewrite lex_from_cons.
  change (lex_step LStart toks 34) with (Some (LString [], toks)).
  cbv beta iota. apply lex_string_body.
Qed.

Lemma lex_write_prompt (p : PosturePrompt) (toks : list token)
    (rest : jsstring) :
  lex_from LStart toks (write_prompt p ++ rest)
  = lex_from LStart (rev (TLBrace :: member_tokens p) ++ toks) rest.
Proof.
  unfold write_prompt. repeat rewrite <- app_assoc. cbn [app].
  rewrite lex_from_cons.
  change (lex_step LStart toks 123) with (Some (LStart, TLBrace :: toks)).
  cbv beta iota. rewrite lex_quote, lex_from_cons.
  change (lex_step LStart ?t 58) with (Some (LStart, TColon :: t)).
  cbv beta iota. rewrite lex_quote, lex_from_cons.
  change (lex_step LStart ?t 44) with (Some (LStart, TComma :: t)).
  cbv beta iota. rewrite lex_quote, lex_from_cons.
  change (lex_step LStart ?t 58) with (Some (LStart, TColon :: t)).
  cbv beta iota. rewrite lex_quote, lex_from_cons.
  change (lex_step LStart ?t 125) with (Some (LStart, TRBrace :: t)).
  cbv beta iota. reflexivity.
Qed.

Lemma lex_write_prompts_tail (ps : list PosturePrompt) :
  forall toks : list token,
    lex_from LStart toks (write_prompts_tail ps)
    = Some (rev toks ++ tail_tokens ps).
Proof.
  induction ps as [|p ps IH]; intros toks.
  - reflexivity.
  - cbn [write_prompts_tail app]. rewrite lex_from_cons.
    change (lex_step LStart toks 44) with (Some (LStart, TComma :: toks)).
    cbv beta iota. rewrite lex_write_prompt, IH.
    unfold tail_tokens. cbn [flat_map rev member_tokens app].
    repeat rewrite rev_app_distr. cbn [rev app].
    repeat (rewrite <- app_assoc; cbn [app]). reflexivity.
Qed.

Lemma tokenize_write_prompts (ps : list PosturePrompt) :
  tokenize (write_prompts ps) = Some (prompts_tokens ps).
Proof.
  unfold tokenize. destruct ps as [|p ps]; [reflexivity|].
  cbn [write_prompts app]. rewrite lex_from_cons.
  change (lex_step LStart [] 91) with (Some (LStart, [TLBracket])).
  cbv beta iota. rewrite lex_write_prompt, lex_write_prompts_tail.
  reflexivity.
Qed.

Lemma parse_members (p : PosturePrompt) (elements : list json)
    (stack : list frame) (rest : list token) :
  parse_from (PObjectFirst (InArray elements :: stack))
    (member_tokens p ++ rest)
  = parse_from (PArrayNext (PosturePrompt_to_json p :: elements) stack) rest.
Proof. reflexivity. Qed.

Lemma parse_tail_tokens (ps : list PosturePrompt) :
  forall elements : list json,
    parse_from (PArrayNext elements []) (tail_tokens ps)
    = Some (JArray (rev elements ++ map PosturePrompt_to_json ps)).
Proof.
  induction ps as [|p ps IH]; intros elements.
  - cbn. rewrite app_nil_r. reflexivity.
  - change (tail_tokens (p :: ps))
      with (TComma :: TLBrace :: member_tokens p ++ tail_tokens ps).
    change (parse_from (PArrayNext elements [])
              (TComma :: TLBrace :: member_tokens p ++ tail_tokens ps))
      with (parse_from (PObjectFirst [InArray elements])
              (member_tokens p ++ tail_tokens ps)).
    rewrite parse_members, IH. cbn [rev map].
    rewrite <- app_assoc. reflexivity.
Qed.

Lemma parse_write_prompts (ps : list PosturePrompt) :
  JSON.parse (write_prompts ps) = Some (JArray (map PosturePrompt_to_json ps)).
Proof.
  unfold JSON.parse. rewrite tokenize_write_prompts.
  destruct ps as [|p ps]; [reflexivity|].
  change (parse_from (PValue []) (prompts_tokens (p :: ps)))
    with (parse_from (PObjectFirst [InArray []])
            (member_tokens p ++ tail_tokens ps)).
  rewrite parse_members, parse_tail_tokens. reflexivity.
Qed.

Lemma trim_start_padding (pad s : jsstring) :
  forallb is_trim_space pad = true ->
  trim_start (pad ++ s) = trim_start s.
Proof.
  induction pad as [|c pad IH]; intros H; [reflexivity|].
  cbn in H. apply andb_true_iff in H. destruct H as [Hc Hpad].
  cbn [app trim_start]. rewrite Hc. apply IH. exact Hpad.
Qed.

Lemma forallb_rev {A} (f : A -> bool) (l : list A) :
  forallb f (rev l) = forallb f l.
Proof.
  induction l as [|a l IH]; [reflexivity|].
  cbn [rev forallb]. rewrite forallb_app, IH. cbn. rewrite andb_true_r.
  apply andb_comm.
Qed.

Lemma write_prompts_tail_end (ps : list PosturePrompt) :
  exists body : jsstring, write_prompts_tail ps = body ++ [93].
Proof.
  induction ps as [|p ps (body & IH)].
  - exists []. reflexivity.
  - exists ([44] ++ write_prompt p ++ body).
    cbn [write_prompts_tail]. rewrite IH.
    repeat rewrite <- app_assoc. reflexivity.
Qed.

Lemma write_prompts_brackets (ps : list PosturePrompt) :
  exists body : jsstring, write_prompts ps = 91 :: body ++ [93].
Proof.
  destruct ps as [|p ps].
  - exists []. reflexivity.
  - destruct (write_prompts_tail_end ps) as (body & H).
    exists (write_prompt p ++ body).
    cbn [write_prompts app]. rewrite H, <- app_assoc. reflexivity.
Qed.

Lemma trim_padded_array (before after body : jsstring) :
  forallb is_trim_space before = true ->
  forallb is_trim_space after = true ->
  trim (before ++ (91 :: body ++ [93]) ++ after) = 91 :: body ++ [93].
Proof.
  intros Hb Ha. unfold trim.
  rewrite (trim_start_padding before _ Hb).
  assert (H1 : trim_start ((91 :: body ++ [93]) ++ after)
               = (91 :: body ++ [93]) ++ after) by reflexivity.
  rewrite H1, rev_app_distr, trim_start_padding
    by (rewrite forallb_rev; exact Ha).
  assert (H2 : rev (91 :: body ++ [93]) = 93 :: rev body ++ [91]).
  { cbn [rev]. rewrite rev_app_distr. reflexivity. }
  assert (H3 : trim_start (93 :: rev body ++ [91]) = 93 :: rev body ++ [91])
    by reflexivity.
  rewrite H2, H3, <- H2. apply rev_involutive.
Qed.

Lemma trim_written_prompts (ps : list PosturePrompt)
    (before after : jsstring) :
  forallb is_trim_space before = true ->
  forallb is_trim_space after = true ->
  trim (before ++ write_prompts ps ++ after) = write_prompts ps.
Proof.
  intros Hb Ha. destruct (write_prompts_brackets ps) as (body & ->).
  apply trim_padded_array; assumption.
Qed.

(** X7: the written form of any list of prompts, with any white space
    that [trim] strips around it, comes back from [getPosturePrompts] as
    that list, element by element and in the order of the text. *)
Lemma getPosturePrompts_reads_written_prompts (w : World)
    (response : GenerateContentResponse) (ps : list PosturePrompt)
    (before after : jsstring) :
  truthy (API_KEY w) = true ->
  generateContent w (client w) getPosturePrompts_request = inr response ->
  response_text response = Some (before ++ write_prompts ps ++ after) ->
  forallb is_trim_space before = true ->
  forallb is_trim_space after = true ->
  outcome (getPosturePrompts w)
  = Return (JArray (map PosturePrompt_to_json ps)).
Proof.
  intros Hkey Hcall Htext Hb Ha. unfold outcome.
  rewrite run_getPosturePrompts_present by exact Hkey.
  cbv zeta. rewrite Hcall, Htext. cbv beta iota.
  rewrite (trim_written_prompts ps before after Hb Ha).
  rewrite parse_write_prompts. reflexivity.
Qed.

(** ** Further properties of the wrappers *)

(** X1: a wrapper calls the remote service exactly once when the
    credential is set, with the request built from its arguments, and
    not at all otherwise, whatever the service answers: there is no
    retry. *)
Theorem one_remote_call (w : World) :
  let calls (one : remote_call) :=
    if truthy (API_KEY w) then [one] else [] in
  (forall p,
     network_calls (trace (generateImage w p))
     = calls (CallGenerateImages (client w) (generateImages_request p)))
  /\ (forall b m p,
        network_calls (trace (editImage w b m p))
        = calls (CallGenerateContent (client w) (editImage_request b m p)))
  /\ network_calls (trace (getPosturePrompts w))
     = calls (CallGenerateContent (client w) getPosturePrompts_request).
Proof.
  cbv zeta. unfold trace.
  destruct (truthy (API_KEY w)) eqn:Hkey.
  - split; [|split]; intros.
    + rewrite run_generateImage_present by exact Hkey. cbv zeta.
      destruct (generateImages w _ _) as [e | response]; [reflexivity|].
      destruct (generatedImages response) as [[|first rest]|];
        try reflexivity.
      destruct (image first); reflexivity.
    + rewrite run_editImage_present by exact Hkey. cbv zeta.
      destruct (generateContent w _ _) as [e | response]; [reflexivity|].
      destruct (candidates response) as [[|cand rest]|]; try reflexivity.
      destruct (content cand) as [cont|]; [|reflexivity].
      destruct (parts cont) as [ps|]; [|reflexivity].
      destruct (for_parts ps); reflexivity.
    + rewrite run_getPosturePrompts_present by exact Hkey. cbv zeta.
      destruct (generateContent w _ _) as [e | response]; [reflexivity|].
      destruct (response_text response) as [txt|]; [|reflexivity].
      destruct (JSON.parse (trim txt)); reflexivity.
  - split; [|split]; intros;
      rewrite ?run_generateImage_missing, ?run_editImage_missing,
        ?run_getPosturePrompts_missing by exact Hkey; reflexivity.
Qed.

(** X2: each wrapper either returns a value and writes nothing to the
    console, or throws its generic error after exactly one
    [console.error] under its own label. *)
Theorem wrappers_settle (w : World) :
  (forall p,
     settles (generateImage w p)
       generateImage_failed (lit "Error generating image:"))
  /\ (forall b m p,
        settles (editImage w b m p)
          editImage_failed (lit "Error editing image:"))
  /\ settles (getPosturePrompts w)
       getPosturePrompts_failed (lit "Error fetching posture prompts:").
Proof.
  unfold settles, outcome, trace.
  destruct (truthy (API_KEY w)) eqn:Hkey.
  - split; [|split]; intros.
    + rewrite run_generateImage_present by exact Hkey. cbv zeta.
      destruct (generateImages w _ _) as [e | response];
        [right; cbn; eauto|].
      destruct (generatedImages response) as [[|first rest]|];
        try solve [right; cbn; eauto].
      destruct (image first); [left | right]; cbn; eauto.
    + rewrite run_editImage_present by exact Hkey. cbv zeta.
      destruct (generateContent w _ _) as [e | response];
        [right; cbn; eauto|].
      destruct (candidates response) as [[|cand rest]|];
        try solve [right; cbn; eauto].
      destruct (content cand) as [cont|]; [|right; cbn; eauto].
      destruct (parts cont) as [ps|]; [|right; cbn; eauto].
      destruct (for_parts ps); [left | right]; cbn; eauto.
    + rewrite run_getPosturePrompts_present by exact Hkey. cbv zeta.
      destruct (generateContent w _ _) as [e | response];
        [right; cbn; eauto|].
      destruct (response_text response) as [txt|]; [|right; cbn; eauto].
      destruct (JSON.parse (trim txt)); [left | right]; cbn; eauto.
  - split; [|split]; intros;
      rewrite ?run_generateImage_missing, ?run_editImage_missing,
        ?run_getPosturePrompts_missing by exact Hkey;
      right; cbn; eauto.
Qed.

(** X3: whatever [generateImage] returns starts with the JPEG data-URI
    prefix; the MIME type is the requested one, never one read from the
    response. *)
Theorem generateImage_returns_jpeg_uri (w : World) (p uri : jsstring) :
  outcome (generateImage w p) = Return uri ->
  starts_with (lit "data:image/jpeg;base64,") uri.
Proof.
  unfold outcome, starts_with.
  destruct (truthy (API_KEY w)) eqn:Hkey.
  - rewrite run_generateImage_present by exact Hkey. cbv zeta.
    destruct (generateImages w _ _) as [e | response]; [discriminate|].
    destruct (generatedImages response) as [[|first rest]|];
      try discriminate.
    destruct (image first) as [img|]; [|discriminate].
    cbn [fst]. intros H. injection H as <-. eexists. reflexivity.
  - rewrite run_generateImage_missing by exact Hkey. discriminate.
Qed.

Lemma generateImage_returns_jpeg_uri_witness :
  starts_with (lit "data:image/jpeg;base64,")
    (lit "data:image/jpeg;base64,/9j/4AAQSkZJRg==").
Proof.
  apply (generateImage_returns_jpeg_uri
           (stub_world test_key (inr one_jpeg) (inr no_content))
           (lit "a red cube")).
  reflexivity.
Defined.

(** X4: an artifact whose [image] has no [imageBytes] is not an error
    for [generateImage]: the call succeeds and the URI ends in the text
    "undefined". *)
Theorem generateImage_without_bytes (w : World) (p : jsstring)
    (response : GenerateImagesResponse) (first : GeneratedImage)
    (rest : list GeneratedImage) (img : Image) :
  truthy (API_KEY w) = true ->
  generateImages w (client w) (generateImages_request p) = inr response ->
  generatedImages response = Some (first :: rest) ->
  image first = Some img ->
  imageBytes img = None ->
  outcome (generateImage w p)
  = Return (lit "data:image/jpeg;base64,undefined").
Proof.
  intros Hkey Hcall Himgs Himg Hbytes. unfold outcome.
  rewrite run_generateImage_present by exact Hkey.
  cbv zeta. rewrite Hcall, Himgs, Himg, Hbytes. reflexivity.
Qed.

Lemma generateImage_without_bytes_witness :
  outcome (generateImage
             (stub_world test_key
                (inr {| generatedImages :=
                          Some [ {| image := Some {| imageBytes := None |} |} ] |})
                (inr no_content))
             (lit "a red cube"))
  = Return (lit "data:image/jpeg;base64,undefined").
Proof.
  apply (generateImage_without_bytes
           (stub_world test_key
              (inr {| generatedImages :=
                        Some [ {| image := Some {| imageBytes := None |} |} ] |})
              (inr no_content))
           (lit "a red cube")
           {| generatedImages :=
                Some [ {| image := Some {| imageBytes := None |} |} ] |}
           {| image := Some {| imageBytes := None |} |} []
           {| imageBytes := None |}); reflexivity.
Defined.

Lemma generateImage_artifact_without_image_witness :
  outcome (generateImage
             (stub_world test_key
                (inr {| generatedImages := Some [ {| image := None |} ] |})
                (inr no_content))
             (lit "a red cube"))
  = Throw (Error generateImage_failed).
Proof.
  apply (generateImage_artifact_without_image
           (stub_world test_key
              (inr {| generatedImages := Some [ {| image := None |} ] |})
              (inr no_content))
           (lit "a red cube")
           {| generatedImages := Some [ {| image := None |} ] |}
           {| image := None |} []); reflexivity.
Defined.

Lemma for_parts_some (ps : list Part) (uri : jsstring) :
  for_parts ps = Some uri ->
  exists part blob,
    In part ps /\ inlineData part = Some blob
    /\ uri = lit "data:" ++ template (mimeType blob)
             ++ lit ";base64," ++ template (data blob).
Proof.
  induction ps as [|q ps IH]; simpl; [discriminate|].
  destruct (inlineData q) as [blob|] eqn:E.
  - intros H. injection H as <-. exists q, blob. auto.
  - intros H. destruct (IH H) as (part & blob & Hin & Hpart & Huri).
    exists part, blob. auto.
Qed.

(** X6: whatever [editImage] returns is built from a part of the first
    candidate of the response: a data URI made of that part's MIME type
    and data, an absent field being written "undefined". *)
Theorem editImage_result_from_response (w : World) (b m p uri : jsstring) :
  outcome (editImage w b m p) = Return uri ->
  exists response cand rest cont ps part blob,
    generateContent w (client w) (editImage_request b m p) = inr response
    /\ candidates response = Some (cand :: rest)
    /\ content cand = Some cont
    /\ parts cont = Some ps
    /\ In part ps
    /\ inlineData part = Some blob
    /\ uri = lit "data:" ++ template (mimeType blob)
             ++ lit ";base64," ++ template (data blob).
Proof.
  unfold outcome.
  destruct (truthy (API_KEY w)) eqn:Hkey.
  - rewrite run_editImage_present by exact Hkey. cbv zeta.
    destruct (generateContent w _ _) as [e | response] eqn:Hcall;
      [discriminate|].
    destruct (candidates response) as [[|cand rest]|] eqn:Hcands;
      try discriminate.
    destruct (content cand) as [cont|] eqn:Hcont; [|discriminate].
    destruct (parts cont) as [ps|] eqn:Hparts; [|discriminate].
    destruct (for_parts ps) as [u|] eqn:Hfor; [|discriminate].
    cbn [fst]. intros H. injection H as <-.
    destruct (for_parts_some ps u Hfor) as (part & blob & Hin & Hp & Hu).
    exists response, cand, rest, cont, ps, part, blob. auto 10.
  - rewrite run_editImage_missing by exact Hkey. discriminate.
Qed.

Lemma editImage_result_from_response_witness :
  exists response cand rest cont ps part blob,
    generateContent
      (stub_world test_key (inr no_images)
         (inr (content_response
                 [text_part "ok"; image_part "image/png" "iVBORw0KGgo="])))
      (client
         (stub_world test_key (inr no_images)
            (inr (content_response
                    [text_part "ok"; image_part "image/png" "iVBORw0KGgo="]))))
      (editImage_request (lit "/9j/4AAQSkZJRg==") (lit "image/jpeg")
         (lit "rotate 90 degrees"))
    = inr response
    /\ candidates response = Some (cand :: rest)
    /\ content cand = Some cont
    /\ parts cont = Some ps
    /\ In part ps
    /\ inlineData part = Some blob
    /\ lit "data:image/png;base64,iVBORw0KGgo="
       = lit "data:" ++ template (mimeType blob)
         ++ lit ";base64," ++ template (data blob).
Proof.
  apply (editImage_result_from_response
           (stub_world test_key (inr no_images)
              (inr (content_response
                      [text_part "ok"; image_part "image/png" "iVBORw0KGgo="])))
           (lit "/9j/4AAQSkZJRg==") (lit "image/jpeg")
           (lit "rotate 90 degrees")
           (lit "data:image/png;base64,iVBORw0KGgo=")).
  reflexivity.
Defined.

Lemma getPosturePrompts_reads_written_prompts_witness :
  outcome (getPosturePrompts
             (stub_world test_key (inr no_images)
                (inr {| candidates := None;
                        response_text :=
                          Some ([65279; 10] ++ write_prompts eight_prompts
                                ++ [32; 160; 10]) |})))
  = Return (JArray (map PosturePrompt_to_json eight_prompts)).
Proof.
  apply (getPosturePrompts_reads_written_prompts
           (stub_world test_key (inr no_images)
              (inr {| candidates := None;
                      response_text :=
                        Some ([65279; 10] ++ write_prompts eight_prompts
                              ++ [32; 160; 10]) |}))
           {| candidates := None;
              response_text :=
                Some ([65279; 10] ++ write_prompts eight_prompts
                      ++ [32; 160; 10]) |}
           eight_prompts [65279; 10] [32; 160; 10]); reflexivity.
Defined.

(** ** The handlers of [App] *)

(** A [catch] that logs and throws a fixed error lets nothing else out. *)
Lemma catch_all_throws {A} (body : Async A) (label generic : jsstring)
    (tr tr' : list event) (e : thrown) :
  try_catch body
    (fun error => console_error label error ;;; throw (Error generic)) tr
  = (Throw e, tr') ->
  e = Error generic.
Proof.
  unfold try_catch, bind, console_error, emit, throw.
  destruct (body tr) as [[a | e0] t]; intros H; [discriminate|].
  injection H as <- _. reflexivity.
Qed.

Lemma for_parts_truthy (ps : list Part) (uri : jsstring) :
  for_parts ps = Some uri -> truthy (Some uri) = true.
Proof.
  intros H. destruct (for_parts_some ps uri H) as (_ & blob & _ & _ & ->).
  reflexivity.
Qed.

Lemma generateImage_value_truthy (w : World) (p url : jsstring)
    (tr : list event) :
  run (generateImage w p) = (Return url, tr) -> truthy (Some url) = true.
Proof.
  destruct (truthy (API_KEY w)) eqn:Hkey.
  - rewrite run_generateImage_present by exact Hkey. cbv zeta.
    destruct (generateImages w _ _) as [e | response]; [discriminate|].
    destruct (generatedImages response) as [[|first rest]|];
      try discriminate.
    destruct (image first) as [img|]; [|discriminate].
    intros H. injection H as <- _. reflexivity.
  - rewrite run_generateImage_missing by exact Hkey. discriminate.
Qed.

Lemma editImage_untyped_typed (w : World) (b m p : jsstring) :
  editImage_untyped w (Some b) (Some m) p = editImage w b m p.
Proof. reflexivity. Qed.

Lemma editImage_untyped_value_truthy (w : World) (b m : option jsstring)
    (p url : jsstring) (tr : list event) :
  run (editImage_untyped w b m p) = (Return url, tr) ->
  truthy (Some url) = true.
Proof.
  cbv [run editImage_untyped try_catch bind ret throw emit console_error
       read getAiClient await_generateContent hd_error].
  destruct (negb (truthy (API_KEY w))); [discriminate|].
  destruct (generateContent w _ _) as [e | response]; [discriminate|].
  destruct (candidates response) as [[|cand rest]|]; try discriminate.
  destruct (content cand) as [cont|]; [|discriminate].
  destruct (parts cont) as [ps|]; [|discriminate].
  destruct (for_parts ps) as [u|] eqn:Hfor; [|discriminate].
  intros H. injection H as <- _. exact (for_parts_truthy ps u Hfor).
Qed.

Lemma split_no_comma (s : jsstring) :
  no_comma s = true -> split 44 s = [s].
Proof.
  induction s as [|c s IH]; [reflexivity|].
  cbn [no_comma forallb]. intros H. apply andb_true_iff in H.
  destruct H as [Hc Hs]. apply negb_true_iff in Hc.
  cbn [split]. rewrite Hc, (IH Hs). reflexivity.
Qed.

Lemma split_header (header rest : jsstring) :
  no_comma header = true ->
  split 44 (header ++ 44 :: rest) = header :: split 44 rest.
Proof.
  induction header as [|c header IH]; [reflexivity|].
  cbn [no_comma forallb]. intros H. apply andb_true_iff in H.
  destruct H as [Hc Hs]. apply negb_true_iff in Hc.
  cbn [app split]. rewrite Hc, (IH Hs). reflexivity.
Qed.

Ltac unfold_handler :=
  cbv [App.fetchPrompts App.handleGenerateImage App.handleEditImage
       hbind hret get update lift try_catch_finally].

Lemma handleGenerateImage_run (w : World) (native : thrown -> jsstring)
    (st : App.Generator) :
  App.generate_button_disabled st = false ->
  App.handleGenerateImage w native st []
  = match run (generateImage w (App.prompt st)) with
    | (Return url, tr) =>
        (Return tt,
         {| App.prompt := App.prompt st; App.imageUrl := Some url;
            App.isLoading := false; App.error := None |}, tr)
    | (Throw _, tr) =>
        (Return tt,
         {| App.prompt := App.prompt st; App.imageUrl := None;
            App.isLoading := false;
            App.error := Some generateImage_failed |}, tr)
    end.
Proof.
  unfold App.generate_button_disabled. intros H.
  apply orb_false_iff in H. destruct H as [Hl Hb].
  unfold_handler. rewrite Hb, Hl. cbv beta iota delta [orb].
  unfold run.
  destruct (generateImage w (App.prompt st) []) as [[url | e] tr] eqn:E.
  - reflexivity.
  - apply catch_all_throws in E. subst e. reflexivity.
Qed.

Lemma handleEditImage_run (w : World) (native : thrown -> jsstring)
    (st : App.Editor) (img : jsstring) :
  App.edit_button_disabled st = false ->
  truthy (App.uploadedImageType st) = true ->
  App.uploadedImage st = Some img ->
  App.handleEditImage w native st []
  = match run (editImage_untyped w (nth_error (split 44 img) 1)
                 (App.uploadedImageType st) (App.editPrompt st)) with
    | (Return url, tr) =>
        (Return tt,
         {| App.uploadedImage := App.uploadedImage st;
            App.uploadedImageType := App.uploadedImageType st;
            App.editedImageUrl := Some url;
            App.editPrompt := App.editPrompt st;
            App.isEditing := false; App.editError := None |}, tr)
    | (Throw _, tr) =>
        (Return tt,
         {| App.uploadedImage := App.uploadedImage st;
            App.uploadedImageType := App.uploadedImageType st;
            App.editedImageUrl := None;
            App.editPrompt := App.editPrompt st;
            App.isEditing := false;
            App.editError := Some editImage_failed |}, tr)
    end.
Proof.
  unfold App.edit_button_disabled. intros H Hty Himg.
  apply orb_false_iff in H. destruct H as [H Hup].
  apply orb_false_iff in H. destruct H as [Hed Hb].
  unfold_handler. rewrite Hb, Hup, Hed, Hty. cbv beta iota delta [orb negb].
  rewrite Himg. cbv beta iota delta [read ret]. unfold run.
  destruct (editImage_untyped w _ _ _ []) as [[url | e] tr] eqn:E.
  - unfold App.setIsEditing, App.setEditedImageUrl, App.setEditError.
    cbn. rewrite ?Himg. reflexivity.
  - apply catch_all_throws in E. subst e.
    unfold App.setIsEditing, App.setEditedImageUrl, App.setEditError.
    cbn. rewrite ?Himg. reflexivity.
Qed.

Lemma fetchPrompts_run (w : World) (native : thrown -> jsstring)
    (st : App.Prompts) :
  App.fetchPrompts w native st []
  = match run (getPosturePrompts w) with
    | (Return prompts, tr) =>
        (Return tt,
         {| App.posturePrompts := prompts; App.isPromptsLoading := false;
            App.promptsError := None |}, tr)
    | (Throw _, tr) =>
        (Return tt,
         {| App.posturePrompts := App.posturePrompts st;
            App.isPromptsLoading := false;
            App.promptsError := Some getPosturePrompts_failed |}, tr)
    end.
Proof.
  unfold_handler. unfold run.
  destruct (getPosturePrompts w []) as [[prompts | e] tr] eqn:E.
  - reflexivity.
  - apply catch_all_throws in E. subst e. reflexivity.
Qed.

(** X8: [handleGenerateImage] does nothing while the button
    [Generate Image] is disabled, that is while a generation is running
    or the prompt is blank: the state is left as it is, no remote call
    is made and nothing is logged. *)
Theorem handleGenerateImage_guard (w : World) (native : thrown -> jsstring)
    (st : App.Generator) :
  App.generate_button_disabled st = true ->
  App.handleGenerateImage w native st [] = (Return tt, st, []).
Proof.
  unfold App.generate_button_disabled. intros H. unfold_handler.
  rewrite orb_comm, H. reflexivity.
Qed.

Lemma handleGenerateImage_guard_witness :
  App.handleGenerateImage world_quota_exceeded engine_text
    {| App.prompt := lit "  "; App.imageUrl := None;
       App.isLoading := false; App.error := None |} []
  = (Return tt,
     {| App.prompt := lit "  "; App.imageUrl := None;
        App.isLoading := false; App.error := None |}, []).
Proof.
  apply (handleGenerateImage_guard world_quota_exceeded engine_text
           {| App.prompt := lit "  "; App.imageUrl := None;
              App.isLoading := false; App.error := None |}).
  reflexivity.
Defined.

(** X9: once past its guard, [handleGenerateImage] never throws and
    does what [generateImage] does on the prompt as typed; it leaves
    [isLoading] false and the prompt as it was, and ends either with
    the returned URL and no error, or with no URL and the generic
    message of [generateImage] as error: the fallback text for an error
    without message is never what the user reads. *)
Theorem handleGenerateImage_settles (w : World)
    (native : thrown -> jsstring) (st : App.Generator) :
  App.generate_button_disabled st = false ->
  completion_of (App.handleGenerateImage w native) st = Return tt
  /\ handler_trace (App.handleGenerateImage w native) st
     = trace (generateImage w (App.prompt st))
  /\ App.prompt (final_state (App.handleGenerateImage w native) st)
     = App.prompt st
  /\ App.isLoading (final_state (App.handleGenerateImage w native) st)
     = false
  /\ match outcome (generateImage w (App.prompt st)) with
     | Return url =>
         App.imageUrl (final_state (App.handleGenerateImage w native) st)
         = Some url
         /\ App.error (final_state (App.handleGenerateImage w native) st)
            = None
     | Throw _ =>
         App.imageUrl (final_state (App.handleGenerateImage w native) st)
         = None
         /\ App.error (final_state (App.handleGenerateImage w native) st)
            = Some generateImage_failed
     end.
Proof.
  intros H. unfold completion_of, final_state, handler_trace, outcome, trace.
  rewrite (handleGenerateImage_run w native st H).
  destruct (run (generateImage w (App.prompt st))) as [[url | e] tr];
    cbn; repeat split; reflexivity.
Qed.

Lemma handleGenerateImage_settles_witness :
  App.generate_button_disabled red_cube = false
  /\ completion_of (App.handleGenerateImage world_quota_exceeded engine_text)
       red_cube
     = Return tt.
Proof.
  split; [reflexivity|].
  apply (handleGenerateImage_settles world_quota_exceeded engine_text
           red_cube).
  reflexivity.
Defined.

(** X10: after [handleGenerateImage] has run past its guard the result
    panel of the generator holds exactly one element: the image that
    [generateImage] returned, or its generic error message; neither the
    spinner nor the placeholder, and never both image and error. *)
Theorem generator_result_after_generate (w : World)
    (native : thrown -> jsstring) (st : App.Generator) :
  App.generate_button_disabled st = false ->
  App.generator_result (final_state (App.handleGenerateImage w native) st)
  = match outcome (generateImage w (App.prompt st)) with
    | Return url => [App.Img url]
    | Throw _ => [App.ErrorMessage generateImage_failed]
    end.
Proof.
  intros H. unfold final_state, outcome.
  rewrite (handleGenerateImage_run w native st H).
  destruct (run (generateImage w (App.prompt st))) as [[url | e] tr] eqn:E.
  - apply generateImage_value_truthy in E.
    destruct url as [|c url]; [discriminate E | reflexivity].
  - reflexivity.
Qed.

Lemma generator_result_after_generate_witness :
  App.generator_result
    (final_state
       (App.handleGenerateImage
          (stub_world test_key (inr one_jpeg) (inr no_content)) engine_text)
       red_cube)
  = [App.Img (lit "data:image/jpeg;base64,/9j/4AAQSkZJRg==")].
Proof.
  apply (generator_result_after_generate
           (stub_world test_key (inr one_jpeg) (inr no_content)) engine_text
           red_cube).
  reflexivity.
Defined.

(** X11: [handleEditImage] does nothing when the button [Edit Image] is
    disabled (an edit is running, the instruction is blank or no image
    is loaded) and also when no image type is recorded: the state is
    left as it is, no remote call is made and nothing is logged. *)
Theorem handleEditImage_guard (w : World) (native : thrown -> jsstring)
    (st : App.Editor) :
  App.edit_button_disabled st = true
  \/ truthy (App.uploadedImageType st) = false ->
  App.handleEditImage w native st [] = (Return tt, st, []).
Proof.
  unfold App.edit_button_disabled. intros H. unfold_handler.
  replace (App.blank (App.editPrompt st)
           || negb (truthy (App.uploadedImage st))
           || App.isEditing st
           || negb (truthy (App.uploadedImageType st))) with true;
    [reflexivity|].
  symmetry. destruct H as [H | H].
  - destruct (App.isEditing st), (App.blank (App.editPrompt st)),
      (negb (truthy (App.uploadedImage st))); try discriminate H;
      cbn; rewrite ?orb_true_r; reflexivity.
  - rewrite H. cbn. apply orb_true_r.
Qed.

Lemma handleEditImage_guard_witness :
  App.handleEditImage world_png_edit engine_text
    {| App.uploadedImage := Some (lit "data:image/png;base64,iVBORw0KGgo=");
       App.uploadedImageType := None;
       App.editedImageUrl := None;
       App.editPrompt := lit "rotate 90 degrees";
       App.isEditing := false;
       App.editError := None |} []
  = (Return tt,
     {| App.uploadedImage := Some (lit "data:image/png;base64,iVBORw0KGgo=");
        App.uploadedImageType := None;
        App.editedImageUrl := None;
        App.editPrompt := lit "rotate 90 degrees";
        App.isEditing := false;
        App.editError := None |}, []).
Proof.
  apply (handleEditImage_guard world_png_edit engine_text
           {| App.uploadedImage :=
                Some (lit "data:image/png;base64,iVBORw0KGgo=");
              App.uploadedImageType := None;
              App.editedImageUrl := None;
              App.editPrompt := lit "rotate 90 degrees";
              App.isEditing := false;
              App.editError := None |}).
  right. reflexivity.
Defined.

(** X12: for an uploaded data URL, a header, a comma and a payload with
    no comma in either, [handleEditImage] past its guard does what
    [editImage] does on the payload alone, the recorded image type and
    the instruction as typed: the header of the data URL is not sent.
    It never throws, leaves [isEditing] false, and ends either with the
    returned URL and no error or with no URL and the generic message of
    [editImage]. *)
Theorem handleEditImage_sends_payload (w : World)
    (native : thrown -> jsstring) (st : App.Editor)
    (header payload ty : jsstring) :
  App.edit_button_disabled st = false ->
  App.uploadedImage st = Some (header ++ 44 :: payload) ->
  no_comma header = true ->
  no_comma payload = true ->
  App.uploadedImageType st = Some ty ->
  truthy (Some ty) = true ->
  completion_of (App.handleEditImage w native) st = Return tt
  /\ handler_trace (App.handleEditImage w native) st
     = trace (editImage w payload ty (App.editPrompt st))
  /\ App.isEditing (final_state (App.handleEditImage w native) st) = false
  /\ match outcome (editImage w payload ty (App.editPrompt st)) with
     | Return url =>
         App.editedImageUrl (final_state (App.handleEditImage w native) st)
         = Some url
         /\ App.editError (final_state (App.handleEditImage w native) st)
            = None
     | Throw _ =>
         App.editedImageUrl (final_state (App.handleEditImage w native) st)
         = None
         /\ App.editError (final_state (App.handleEditImage w native) st)
            = Some editImage_failed
     end.
Proof.
  intros Hbtn Himg Hh Hp Hty Htruthy.
  unfold completion_of, final_state, handler_trace, outcome, trace.
  rewrite (handleEditImage_run w native st _ Hbtn
             ltac:(rewrite Hty; exact Htruthy) Himg).
  rewrite (split_header header payload Hh), (split_no_comma payload Hp).
  cbn [nth_error]. rewrite Hty, editImage_untyped_typed.
  destruct (run (editImage w payload ty (App.editPrompt st)))
    as [[url | e] tr]; cbn; repeat split; reflexivity.
Qed.

Lemma handleEditImage_sends_payload_witness :
  handler_trace (App.handleEditImage world_png_edit engine_text) rotate_png
  = trace (editImage world_png_edit (lit "iVBORw0KGgo=") (lit "image/png")
             (lit "rotate 90 degrees")).
Proof.
  apply (handleEditImage_sends_payload world_png_edit engine_text rotate_png
           (lit "data:image/png;base64") (lit "iVBORw0KGgo=")
           (lit "image/png")); reflexivity.
Defined.

(** X13: after [handleEditImage] has run past its guard the result
    panel of the editor holds exactly one element, an image or the
    generic error message of [editImage]; neither the spinner nor the
    placeholder, and never both image and error. *)
Theorem editor_result_after_edit (w : World) (native : thrown -> jsstring)
    (st : App.Editor) :
  App.edit_button_disabled st = false ->
  truthy (App.uploadedImageType st) = true ->
  (exists url,
     App.editor_result (final_state (App.handleEditImage w native) st)
     = [App.Img url])
  \/ App.editor_result (final_state (App.handleEditImage w native) st)
     = [App.ErrorMessage editImage_failed].
Proof.
  intros Hbtn Hty.
  assert (Himg : exists img, App.uploadedImage st = Some img).
  { unfold App.edit_button_disabled in Hbtn.
    apply orb_false_iff in Hbtn. destruct Hbtn as [_ Hup].
    destruct (App.uploadedImage st) as [img|]; [eauto | discriminate]. }
  destruct Himg as (img & Himg). unfold final_state.
  rewrite (handleEditImage_run w native st img Hbtn Hty Himg).
  destruct (run (editImage_untyped w _ _ _)) as [[url | e] tr] eqn:E.
  - left. exists url. apply editImage_untyped_value_truthy in E.
    destruct url as [|c url]; [discriminate E | reflexivity].
  - right. reflexivity.
Qed.

Lemma editor_result_after_edit_witness :
  (exists url,
     App.editor_result
       (final_state (App.handleEditImage world_quota_exceeded engine_text)
          rotate_png)
     = [App.Img url])
  \/ App.editor_result
       (final_state (App.handleEditImage world_quota_exceeded engine_text)
          rotate_png)
     = [App.ErrorMessage editImage_failed].
Proof.
  apply (editor_result_after_edit world_quota_exceeded engine_text
           rotate_png); reflexivity.
Defined.

(** X14: [fetchPrompts] never throws and does what [getPosturePrompts]
    does; from any state it leaves [isPromptsLoading] false and ends
    either with the value returned, whatever its shape, and no error, or
    with the prompts it had and the generic message of
    [getPosturePrompts] as error. *)
Theorem fetchPrompts_settles (w : World) (native : thrown -> jsstring)
    (st : App.Prompts) :
  completion_of (App.fetchPrompts w native) st = Return tt
  /\ handler_trace (App.fetchPrompts w native) st
     = trace (getPosturePrompts w)
  /\ final_state (App.fetchPrompts w native) st
     = match outcome (getPosturePrompts w) with
       | Return prompts =>
           {| App.posturePrompts := prompts;
              App.isPromptsLoading := false;
              App.promptsError := None |}
       | Throw _ =>
           {| App.posturePrompts := App.posturePrompts st;
              App.isPromptsLoading := false;
              App.promptsError := Some getPosturePrompts_failed |}
       end.
Proof.
  unfold completion_of, final_state, handler_trace, outcome, trace.
  rewrite (fetchPrompts_run w native st).
  destruct (run (getPosturePrompts w)) as [[prompts | e] tr];
    cbn; repeat split; reflexivity.
Qed.

Lemma trim_start_nil_iff (s : jsstring) :
  trim_start s = [] <-> forallb is_trim_space s = true.
Proof.
  induction s as [|c s IH]; cbn [trim_start forallb].
  - split; reflexivity.
  - destruct (is_trim_space c); cbn [andb]; [exact IH|].
    split; discriminate.
Qed.

Lemma trim_start_spaces (s : jsstring) :
  forallb is_trim_space (trim_start s) = true -> trim_start s = [].
Proof.
  induction s as [|c s IH]; cbn [trim_start]; [reflexivity|].
  destruct (is_trim_space c) eqn:Hc; [exact IH|].
  cbn [forallb]. rewrite Hc. discriminate.
Qed.

Lemma trim_nil_iff (s : jsstring) :
  trim s = [] <-> forallb is_trim_space s = true.
Proof.
  unfold trim. rewrite <- trim_start_nil_iff. split.
  - intros H. apply (f_equal (@rev code_unit)) in H.
    rewrite rev_involutive in H. cbn [rev] in H.
    apply trim_start_nil_iff in H. rewrite forallb_rev in H.
    apply trim_start_spaces. exact H.
  - intros ->. reflexivity.
Qed.

(** X16: the guard [!prompt.trim()] of the handlers and of the buttons
    holds exactly for the prompts made of white space only (the empty
    prompt among them): the button [Generate Image] is disabled exactly
    when a generation is running or the prompt has no visible
    character. *)
Theorem generate_button_disabled_iff (st : App.Generator) :
  App.generate_button_disabled st = true
  <-> App.isLoading st = true
      \/ forallb is_trim_space (App.prompt st) = true.
Proof.
  unfold App.generate_button_disabled, App.blank.
  rewrite orb_true_iff, <- trim_nil_iff.
  destruct (trim (App.prompt st)) as [|c s]; cbn.
  - split; intros [H | H]; auto.
  - split; intros [H | H]; auto; discriminate.
Qed.

Lemma generate_button_disabled_iff_witness :
  App.generate_button_disabled
    {| App.prompt := [32; 9; 160; 10]; App.imageUrl := None;
       App.isLoading := false; App.error := None |}
  = true.
Proof.
  apply (generate_button_disabled_iff
           {| App.prompt := [32; 9; 160; 10]; App.imageUrl := None;
              App.isLoading := false; App.error := None |}).
  right. reflexivity.
Defined.

(** ** Every text of an array of prompts is read as the array it denotes *)

Lemma lex_gap (gap : jsstring) (toks : list token) (rest : jsstring) :
  gap_ok gap = true ->
  lex_from LStart toks (gap ++ rest) = lex_from LStart toks rest.
Proof.
  induction gap as [|c gap IH]; [reflexivity|].
  cbn [gap_ok forallb]. intros H. apply andb_true_iff in H.
  destruct H as [Hc Hgap]. cbn [app]. rewrite lex_from_cons.
  unfold lex_step, lex_start. rewrite Hc. exact (IH Hgap).
Qed.

Lemma hex_value_hex_char (h : hex) :
  hex_val h < 16 -> hex_value (hex_char h) = Some (hex_val h).
Proof.
  destruct h as [d upper]. cbn [hex_val]. intros Hd.
  assert (H : d = 0 \/ d = 1 \/ d = 2 \/ d = 3 \/ d = 4 \/ d = 5 \/ d = 6
              \/ d = 7 \/ d = 8 \/ d = 9 \/ d = 10 \/ d = 11 \/ d = 12
              \/ d = 13 \/ d = 14 \/ d = 15) by lia.
  repeat (destruct H as [-> | H]; [destruct upper; reflexivity|]).
  subst d. destruct upper; reflexivity.
Qed.

Lemma lex_item (i : string_item) (acc : jsstring) (toks : list token)
    (rest : jsstring) :
  item_ok i = true ->
  lex_from (LString acc) toks (item_text i ++ rest)
  = lex_from (LString (item_unit i :: acc)) toks rest.
Proof.
  destruct i as [c | e | h1 h2 h3 h4]; cbn [item_ok item_text item_unit app].
  - intros H. apply andb_true_iff in H. destruct H as [H H92].
    apply andb_true_iff in H. destruct H as [Hge H34].
    apply negb_true_iff, N.eqb_neq in H34, H92. apply N.leb_le in Hge.
    rewrite lex_from_cons, lex_step_plain by assumption. reflexivity.
  - intros _. destruct e; reflexivity.
  - intros H. apply andb_true_iff in H. destruct H as [H H4].
    apply andb_true_iff in H. destruct H as [H H3].
    apply andb_true_iff in H. destruct H as [H1 H2].
    apply N.ltb_lt in H1, H2, H3, H4.
    rewrite lex_from_cons.
    change (lex_step (LString acc) toks 92) with (Some (LEscape acc, toks)).
    cbv beta iota. rewrite lex_from_cons.
    change (lex_step (LEscape acc) toks 117)
      with (Some (LUnicode acc 0 0, toks)).
    cbv beta iota.
    rewrite lex_from_cons,
      (lex_step_unicode _ _ _ _ _ _ (hex_value_hex_char _ H1)).
    cbv beta iota.
    rewrite lex_from_cons,
      (lex_step_unicode _ _ _ _ _ _ (hex_value_hex_char _ H2)).
    cbv beta iota.
    rewrite lex_from_cons,
      (lex_step_unicode _ _ _ _ _ _ (hex_value_hex_char _ H3)).
    cbv beta iota.
    rewrite lex_from_cons,
      (lex_step_unicode _ _ _ _ _ _ (hex_value_hex_char _ H4)).
    cbv beta iota.
    match goal with
    | |- lex_from (LString (?a :: _)) _ _ = lex_from (LString (?b :: _)) _ _ =>
        replace a with b by lia
    end.
    reflexivity.
Qed.

Lemma lex_literal_body (l : literal) :
  forall (acc : jsstring) (toks : list token) (rest : jsstring),
    literal_ok l = true ->
    lex_from (LString acc) toks (flat_map item_text l ++ 34 :: rest)
    = lex_from LStart (TString (rev acc ++ literal_value l) :: toks) rest.
Proof.
  induction l as [|i l IH]; intros acc toks rest.
  - intros _. cbn [flat_map app literal_value map].
    rewrite lex_from_cons, app_nil_r. reflexivity.
  - cbn [literal_ok forallb]. intros H. apply andb_true_iff in H.
    destruct H as [Hi Hl]. cbn [flat_map literal_value map].
    rewrite <- app_assoc, (lex_item i acc toks _ Hi), (IH _ _ _ Hl).
    cbn [rev]. rewrite <- app_assoc. reflexivity.
Qed.

Lemma lex_literal (l : literal) (toks : list token) (rest : jsstring) :
  literal_ok l = true ->
  lex_from LStart toks (literal_text l ++ rest)
  = lex_from LStart (TString (literal_value l) :: toks) rest.
Proof.
  intros H. unfold literal_text. cbn [app]. rewrite <- app_assoc. cbn [app].
  rewrite lex_from_cons.
  change (lex_step LStart toks 34) with (Some (LString [], toks)).
  cbv beta iota. exact (lex_literal_body l [] toks rest H).
Qed.

Ltac split_andb :=
  repeat match goal with
         | H : (_ && _) = true |- _ =>
             apply andb_true_iff in H; destruct H
         end.

Lemma lex_punctuation (c : code_unit) (t : token) (toks : list token)
    (rest : jsstring) :
  lex_start toks c = Some (LStart, t :: toks) ->
  lex_from LStart toks (c :: rest) = lex_from LStart (t :: toks) rest.
Proof.
  intros H. rewrite lex_from_cons. cbn [lex_step]. rewrite H. reflexivity.
Qed.

Lemma lex_member (m : member_syntax) (toks : list token) (rest : jsstring) :
  member_ok m = true ->
  lex_from LStart toks (member_text m ++ rest)
  = lex_from LStart (rev (member_tokens_of m) ++ toks) rest.
Proof.
  unfold member_ok, member_text. intros H. split_andb.
  repeat rewrite <- app_assoc.
  rewrite lex_gap, lex_literal, lex_gap by assumption.
  cbn [app]. rewrite (lex_punctuation 58 TColon) by reflexivity.
  rewrite lex_gap, lex_literal, lex_gap by assumption.
  reflexivity.
Qed.

Lemma lex_members_tail (ms : list member_syntax) :
  forall (toks : list token) (rest : jsstring),
    forallb member_ok ms = true ->
    lex_from LStart toks
      (flat_map (fun b => 44 :: member_text b) ms ++ rest)
    = lex_from LStart
        (rev (flat_map (fun m => TComma :: member_tokens_of m) ms) ++ toks)
        rest.
Proof.
  induction ms as [|m ms IH]; intros toks rest; [reflexivity|].
  cbn [forallb flat_map]. intros H. split_andb.
  cbn [app]. rewrite (lex_punctuation 44 TComma) by reflexivity.
  rewrite <- app_assoc, lex_member, IH by assumption.
  change (TComma :: member_tokens_of m
          ++ flat_map (fun m0 => TComma :: member_tokens_of m0) ms)
    with ((TComma :: member_tokens_of m)
          ++ flat_map (fun m0 => TComma :: member_tokens_of m0) ms).
  rewrite rev_app_distr. cbn [rev]. repeat rewrite <- app_assoc.
  reflexivity.
Qed.

Lemma lex_object (o : object_syntax) (toks : list token) (rest : jsstring) :
  object_ok o = true ->
  lex_from LStart toks (object_text o ++ rest)
  = lex_from LStart (rev (object_tokens o) ++ toks) rest.
Proof.
  unfold object_ok, object_text, object_tokens. intros H. split_andb.
  repeat rewrite <- app_assoc. rewrite lex_gap by assumption.
  cbn [app]. rewrite (lex_punctuation 123 TLBrace) by reflexivity.
  rewrite lex_gap by assumption.
  destruct (object_members o) as [|m ms].
  - cbn [comma_separated app].
    rewrite (lex_punctuation 125 TRBrace) by reflexivity.
    rewrite lex_gap by assumption. reflexivity.
  - cbn [comma_separated forallb] in *. split_andb.
    repeat rewrite <- app_assoc.
    rewrite lex_member, lex_members_tail by assumption.
    cbn [app]. rewrite (lex_punctuation 125 TRBrace) by reflexivity.
    rewrite lex_gap by assumption.
    f_equal. cbn [rev]. repeat rewrite rev_app_distr. cbn [rev app].
    repeat rewrite <- app_assoc. reflexivity.
Qed.

Lemma lex_objects_tail (os : list object_syntax) :
  forall (toks : list token) (rest : jsstring),
    forallb object_ok os = true ->
    lex_from LStart toks
      (flat_map (fun b => 44 :: object_text b) os ++ rest)
    = lex_from LStart
        (rev (flat_map (fun o => TComma :: object_tokens o) os) ++ toks)
        rest.
Proof.
  induction os as [|o os IH]; intros toks rest; [reflexivity|].
  cbn [forallb flat_map]. intros H. split_andb.
  cbn [app]. rewrite (lex_punctuation 44 TComma) by reflexivity.
  rewrite <- app_assoc, lex_object, IH by assumption.
  change (TComma :: object_tokens o
          ++ flat_map (fun o0 => TComma :: object_tokens o0) os)
    with ((TComma :: object_tokens o)
          ++ flat_map (fun o0 => TComma :: object_tokens o0) os).
  rewrite rev_app_distr. cbn [rev]. repeat rewrite <- app_assoc.
  reflexivity.
Qed.

Lemma tokenize_array_text (a : array_syntax) :
  array_ok a = true -> tokenize (array_text a) = Some (array_tokens a).
Proof.
  unfold array_ok, array_text, array_tokens, tokenize. intros H. split_andb.
  cbn [app]. rewrite (lex_punctuation 91 TLBracket) by reflexivity.
  rewrite lex_gap by assumption.
  destruct (array_objects a) as [|o os].
  - reflexivity.
  - cbn [comma_separated forallb] in *. split_andb.
    rewrite <- app_assoc, lex_object, lex_objects_tail by assumption.
    rewrite (lex_punctuation 93 TRBracket) by reflexivity.
    cbn [lex_from lex_end]. f_equal.
    cbn [rev]. repeat rewrite rev_app_distr. cbn [rev app].
    repeat rewrite rev_involutive. repeat rewrite <- app_assoc.
    reflexivity.
Qed.

Lemma parse_members_tail (ms : list member_syntax) :
  forall (members : list (jsstring * json)) (stack : list frame)
         (rest : list token),
    parse_from (PObjectNext members stack)
      (flat_map (fun m => TComma :: member_tokens_of m) ms ++ rest)
    = parse_from (PObjectNext (fold_left add_member ms members) stack) rest.
Proof.
  induction ms as [|m ms IH]; intros members stack rest; [reflexivity|].
  cbn [flat_map fold_left]. rewrite <- (IH (add_member members m)).
  reflexivity.
Qed.

Lemma parse_object_tokens (o : object_syntax) (stack : list frame)
    (rest : list token) :
  parse_from (PObjectFirst stack) (tl (object_tokens o) ++ rest)
  = parse_from (deliver (object_value o) stack) rest.
Proof.
  unfold object_tokens, object_value. cbn [tl].
  destruct (object_members o) as [|m ms]; [reflexivity|].
  rewrite <- !app_assoc.
  change (parse_from (PObjectFirst stack)
            (member_tokens_of m
             ++ flat_map (fun m' => TComma :: member_tokens_of m') ms
             ++ [TRBrace] ++ rest))
    with (parse_from (PObjectNext (add_member [] m) stack)
            (flat_map (fun m' => TComma :: member_tokens_of m') ms
             ++ TRBrace :: rest)).
  rewrite parse_members_tail. reflexivity.
Qed.

Lemma parse_objects_tail (os : list object_syntax) :
  forall elements : list json,
    parse_from (PArrayNext elements [])
      (flat_map (fun o => TComma :: object_tokens o) os ++ [TRBracket])
    = Some (JArray (rev elements ++ map object_value os)).
Proof.
  induction os as [|o os IH]; intros elements.
  - cbn. rewrite app_nil_r. reflexivity.
  - cbn [flat_map].
    transitivity
      (parse_from (deliver (object_value o) [InArray elements])
         (flat_map (fun o0 => TComma :: object_tokens o0) os
          ++ [TRBracket])).
    { rewrite <- app_assoc.
      exact (parse_object_tokens o [InArray elements] _). }
    cbn [deliver]. rewrite IH. cbn [rev map].
    rewrite <- app_assoc. reflexivity.
Qed.

Lemma parse_array_text (a : array_syntax) :
  array_ok a = true -> JSON.parse (array_text a) = Some (array_value a).
Proof.
  intros H. unfold JSON.parse. rewrite (tokenize_array_text a H).
  unfold array_tokens, array_value.
  destruct (array_objects a) as [|o os]; [reflexivity|].
  transitivity
    (parse_from (deliver (object_value o) [InArray []])
       (flat_map (fun o' => TComma :: object_tokens o') os ++ [TRBracket])).
  { rewrite <- app_assoc.
    exact (parse_object_tokens o [InArray []] _). }
  cbn [deliver]. rewrite parse_objects_tail. reflexivity.
Qed.

Lemma trim_array_text (a : array_syntax) (before after : jsstring) :
  forallb is_trim_space before = true ->
  forallb is_trim_space after = true ->
  trim (before ++ array_text a ++ after) = array_text a.
Proof.
  intros Hb Ha.
  assert (H : array_text a
              = 91 :: (array_inner_gap a
                       ++ comma_separated object_text (array_objects a))
                ++ [93]).
  { unfold array_text. cbn [app]. rewrite app_assoc. reflexivity. }
  rewrite H. apply trim_padded_array; assumption.
Qed.

(** C7: when the trimmed text of the response is JSON for an array of
    prompt objects, however it is laid out and however its strings are
    escaped, [getPosturePrompts] returns the array the text denotes: as
    many elements as the text has objects, the element at each index
    being the object written at that index. *)
Theorem getPosturePrompts_returns_text_array (w : World)
    (response : GenerateContentResponse) (a : array_syntax)
    (before after : jsstring) :
  truthy (API_KEY w) = true ->
  generateContent w (client w) getPosturePrompts_request = inr response ->
  response_text response = Some (before ++ array_text a ++ after) ->
  forallb is_trim_space before = true ->
  forallb is_trim_space after = true ->
  array_ok a = true ->
  exists returned,
    outcome (getPosturePrompts w) = Return (JArray returned)
    /\ List.length returned = List.length (array_objects a)
    /\ forall i, nth_error returned i
                 = option_map object_value (nth_error (array_objects a) i).
Proof.
  intros Hkey Hcall Htext Hb Ha Hok.
  exists (map object_value (array_objects a)). unfold outcome.
  rewrite run_getPosturePrompts_present by exact Hkey.
  cbv zeta. rewrite Hcall, Htext. cbv beta iota.
  rewrite (trim_array_text a before after Hb Ha), (parse_array_text a Hok).
  split; [reflexivity|]. split.
  - apply length_map.
  - intros i. apply nth_error_map.
Qed.

Lemma getPosturePrompts_returns_text_array_witness :
  exists returned,
    outcome (getPosturePrompts world_eight_prompts) = Return (JArray returned)
    /\ List.length returned = 8%nat
    /\ forall i, nth_error returned i
                 = option_map object_value
                     (nth_error (array_objects eight_prompts_syntax) i).
Proof.
  apply (getPosturePrompts_returns_text_array world_eight_prompts
           {| candidates := None;
              response_text :=
                Some ([65279; 10] ++ array_text eight_prompts_syntax
                      ++ [10; 8232]) |}
           eight_prompts_syntax [65279; 10] [10; 8232]);
    reflexivity.
Defined.
